(** * Barcode scanning modal: scan aggregation and verification

    Shallow embedding of
    [src/app/modules/barcode-scanning/barcode-scanning-modal.component.ts].
    The source holds two revisions of the same component: the first one
    (lines 1-261) has no overlay and keeps no timestamp, the second one
    (lines 262-618) adds the [timestamp] field, the debounced selectors and
    the canvas overlay.  They are embedded as [Rev1] and [Rev2]; what they
    share (the record types, the status updater, [isMatch], the completion
    handler of the [searchNewBarcodes] effect) is embedded once.

    Modelling conventions.
    - [state.scanResults] is a plain JavaScript object used as a map.  Its own
      properties are kept as an association list in the order in which
      [Object.values] enumerates them: array-index keys in ascending numeric
      order first, then the other keys in creation order.
    - A property read [o[k]] also looks into [Object.prototype]; the names
      found there are listed in [ObjectPrototype_keys].
    - The objects stored in the map are built with spread expressions, so a
      field of a stored object may be missing: every field is an [option],
      [None] standing for an absent property (which reads as [undefined]).
    - Counts are JavaScript numbers.  Only integers and [NaN] arise; the
      integers stay far below 2^53, where [+ 1] is exact, and are modelled
      by [Z].
    - [new Date()] is a reading of the wall clock (milliseconds), passed as an
      argument.
    - Strings are sequences of characters; what the code does with them
      (equality of keys, [startsWith] with an ASCII prefix) does not depend
      on their encoding. *)

From Stdlib Require Import ZArith NArith QArith Qround List String Ascii Bool Lia.
From Stdlib Require Import Sorting.Sorted Sorting.Permutation.
Import ListNotations.
Local Open Scope string_scope.
Local Open Scope list_scope.
Local Open Scope Z_scope.

(** ** Constants (lines 23-25; the second revision only changes the latency) *)

Definition POSITIVE_SCAN_THRESHOLD : Z := 3.
Definition KEEP_SCANNING_AFTER_MATCH : bool := false.

(** ** JavaScript objects used as maps *)

Module JsObject.
Section WithValues.
Context {V : Type}.

(** Own enumerable string-keyed properties, in enumeration order. *)
Definition t := list (string * V).

Definition digit_of (c : ascii) : option N :=
  let n := N_of_ascii c in
  if ((48 <=? n) && (n <=? 57))%N then Some (n - 48)%N else None.

Fixpoint parse_digits (s : string) (acc : N) : option N :=
  match s with
  | EmptyString => Some acc
  | String c s' =>
      match digit_of c with
      | Some d => parse_digits s' (10 * acc + d)%N
      | None => None
      end
  end.

(** An array index is a canonical decimal numeral below 2^32 - 1. *)
Definition array_index (k : string) : option N :=
  match k with
  | EmptyString => None
  | String c rest =>
      if (Ascii.eqb c "0" && negb (String.eqb rest ""))%bool then None
      else match parse_digits k 0 with
           | Some n => if (n <=? 4294967294)%N then Some n else None
           | None => None
           end
  end.

Fixpoint own_get (o : t) (k : string) : option V :=
  match o with
  | [] => None
  | (k', v) :: o' => if String.eqb k' k then Some v else own_get o' k
  end.

Fixpoint overwrite (k : string) (v : V) (o : t) : t :=
  match o with
  | [] => []
  | (k', v') :: o' =>
      (if String.eqb k' k then (k', v) else (k', v')) :: overwrite k v o'
  end.

(** A new array-index key goes before the first key that is not a smaller
    array index. *)
Fixpoint insert_index (n : N) (k : string) (v : V) (o : t) : t :=
  match o with
  | [] => [(k, v)]
  | (k', v') :: o' =>
      match array_index k' with
      | Some n' =>
          if (n' <? n)%N then (k', v') :: insert_index n k v o'
          else (k, v) :: o
      | None => (k, v) :: o
      end
  end.

Definition define_new (k : string) (v : V) (o : t) : t :=
  match array_index k with
  | Some n => insert_index n k v o
  | None => o ++ [(k, v)]
  end.

(** [{ ...o, [k]: v }] *)
Definition set (o : t) (k : string) (v : V) : t :=
  match own_get o k with
  | Some _ => overwrite k v o
  | None => define_new k v o
  end.

(** [Object.values(o)] *)
Definition values (o : t) : list V := map snd o.

Definition keys (o : t) : list string := map fst o.
End WithValues.
Arguments t : clear implicits.
End JsObject.

(** The property names every object inherits from [Object.prototype]; each
    of them reads as a function (or, for [__proto__], as the prototype
    object): a truthy value without enumerable own properties. *)
Definition ObjectPrototype_keys : list string :=
  [ "constructor"; "__defineGetter__"; "__defineSetter__"; "hasOwnProperty";
    "__lookupGetter__"; "__lookupSetter__"; "isPrototypeOf";
    "propertyIsEnumerable"; "toString"; "valueOf"; "__proto__";
    "toLocaleString" ].

Definition inherited (k : string) : bool :=
  existsb (String.eqb k) ObjectPrototype_keys.

(** ** Data model (lines 27-40 and 288-302) *)

Inductive BarcodeSearchStatus := scanned | rejected | matched.

Inductive jsnumber := Num (z : Z) | NaN.

Definition CornerPoints := list (Z * Z).

(** An optional property [p?: T] of an object that is spread into another
    one: the object may lack it, have it with the value [undefined] (the
    type of [p?: T] is [T | undefined]), or have it with a value.  A read
    gives [undefined] in the first two cases, but a spread copies the
    property in the second one. *)
Inductive OptionalProperty (A : Type) :=
| Absent
| PresentUndefined
| Present (a : A).
Arguments Absent {A}.
Arguments PresentUndefined {A}.
Arguments Present {A} a.

(** [b.p] *)
Definition read {A} (p : OptionalProperty A) : option A :=
  match p with
  | Absent | PresentUndefined => None
  | Present a => Some a
  end.

(** [{ p: old, ...b }.p] *)
Definition spreadOver {A} (p : OptionalProperty A) (old : option A)
  : option A :=
  match p with
  | Absent => old
  | PresentUndefined => None
  | Present a => Some a
  end.

(** The [Barcode] interface of [@capacitor-mlkit/barcode-scanning]: the
    payload of a [barcodeScanned] event. *)
Module Barcode.
Record Barcode := {
  bytes : OptionalProperty (list Z);
  cornerPoints : OptionalProperty CornerPoints;
  displayValue : string;
  format : string;
  rawValue : string;
  valueType : string
}.
End Barcode.
Abbreviation Barcode := Barcode.Barcode.

(** [BarcodeScanResults]: an object stored in [state.scanResults].  A field
    is what a read of the property gives, [None] for [undefined]: the
    component reads the properties of a stored object and spreads it first
    into a new one, and neither tells a property that is absent from one
    that is [undefined]. *)
Record BarcodeScanResults := {
  bytes : option (list Z);
  cornerPoints : option CornerPoints;
  displayValue : option string;
  format : option string;
  rawValue : option string;
  valueType : option string;
  count : option jsnumber;
  searchStatus : option BarcodeSearchStatus;
  timestamp : option Z
}.

Record BarcodeScannerState := {
  scanResults : JsObject.t BarcodeScanResults
}.

(** The initial state passed to [super] (lines 237-239, 592-594). *)
Definition initialState : BarcodeScannerState := {| scanResults := [] |}.

(** ** Spread expressions *)

(** [{}], also what [{ ...undefined }] and [{ ...f }] for a function [f]
    evaluate to. *)
Definition emptyObject : BarcodeScanResults :=
  {| bytes := None; cornerPoints := None; displayValue := None;
     format := None; rawValue := None; valueType := None;
     count := None; searchStatus := None; timestamp := None |}.

(** [{ ...barcode }], as it reads *)
Definition ofBarcode (b : Barcode) : BarcodeScanResults :=
  {| bytes := read (Barcode.bytes b);
     cornerPoints := read (Barcode.cornerPoints b);
     displayValue := Some (Barcode.displayValue b);
     format := Some (Barcode.format b);
     rawValue := Some (Barcode.rawValue b);
     valueType := Some (Barcode.valueType b);
     count := None; searchStatus := None; timestamp := None |}.

(** [{ ...a, ...barcode }]: every property the event has wins, also one
    whose value is [undefined]; the properties it lacks are those of [a]. *)
Definition assign (a : BarcodeScanResults) (b : Barcode)
  : BarcodeScanResults :=
  {| bytes := spreadOver (Barcode.bytes b) (bytes a);
     cornerPoints := spreadOver (Barcode.cornerPoints b) (cornerPoints a);
     displayValue := Some (Barcode.displayValue b);
     format := Some (Barcode.format b);
     rawValue := Some (Barcode.rawValue b);
     valueType := Some (Barcode.valueType b);
     count := count a;
     searchStatus := searchStatus a;
     timestamp := timestamp a |}.

(** [{ ...r, count: c }], [{ ...r, searchStatus: s }], [{ ...r, timestamp: t }] *)
Definition set_count (c : jsnumber) (r : BarcodeScanResults) :=
  {| bytes := bytes r; cornerPoints := cornerPoints r;
     displayValue := displayValue r; format := format r;
     rawValue := rawValue r; valueType := valueType r;
     count := Some c; searchStatus := searchStatus r;
     timestamp := timestamp r |}.

Definition set_searchStatus (s : BarcodeSearchStatus) (r : BarcodeScanResults) :=
  {| bytes := bytes r; cornerPoints := cornerPoints r;
     displayValue := displayValue r; format := format r;
     rawValue := rawValue r; valueType := valueType r;
     count := count r; searchStatus := Some s;
     timestamp := timestamp r |}.

Definition set_timestamp (t : Z) (r : BarcodeScanResults) :=
  {| bytes := bytes r; cornerPoints := cornerPoints r;
     displayValue := displayValue r; format := format r;
     rawValue := rawValue r; valueType := valueType r;
     count := count r; searchStatus := searchStatus r;
     timestamp := Some t |}.

(** [x.count + 1] where [x.count] may be [undefined] *)
Definition plus1 (c : option jsnumber) : jsnumber :=
  match c with
  | Some (Num z) => Num (z + 1)
  | Some NaN => NaN
  | None => NaN
  end.

(** ** Property reads on [state.scanResults] *)

Inductive Lookup :=
| Own (r : BarcodeScanResults)   (* an own property *)
| Inherited                      (* found on [Object.prototype] *)
| Undefined.

Definition get (o : JsObject.t BarcodeScanResults) (k : string) : Lookup :=
  match JsObject.own_get o k with
  | Some r => Own r
  | None => if inherited k then Inherited else Undefined
  end.

(** Objects and functions are truthy, [undefined] is not. *)
Definition truthy (x : Lookup) : bool :=
  match x with Own _ | Inherited => true | Undefined => false end.

(** What a spread of the value copies and what its property reads return. *)
Definition fields (x : Lookup) : BarcodeScanResults :=
  match x with Own r => r | Inherited | Undefined => emptyObject end.

(** ** The status updater *)

(** [updateBarcodeSearchStatus], lines 173-185 and 466-478 (identical). *)
Definition updateBarcodeSearchStatus (state : BarcodeScannerState)
    (barcodeValue : string) (searchStatus : BarcodeSearchStatus)
  : BarcodeScannerState :=
  {| scanResults :=
      JsObject.set (scanResults state) barcodeValue
        (set_searchStatus searchStatus
           (fields (get (scanResults state) barcodeValue))) |}.

(** [isMatch], lines 216-218 and 560-562. *)
Definition isMatch (barcodeValue : string) : bool :=
  String.prefix "S" barcodeValue || String.prefix "CAT" barcodeValue.

(** ** The [searchNewBarcodes] effect (lines 189-214 and 482-507) *)

(** The value carried by the delayed observable:
    [{ barcode, matched: this.isMatch(barcode.displayValue) }]. *)
Record Verification := {
  barcode : BarcodeScanResults;
  isMatched : bool
}.

(** What the component does to the outside. *)
Inductive Effect :=
| ApiCall (v : Verification)   (* a delayed observable is started *)
| Beep (s : BarcodeSearchStatus)
| StopScan
| ClearRect
| StrokePath (points : CornerPoints).

(** The argument of [mergeMap]: [None] is the [TypeError] of
    [undefined.startsWith]. *)
Definition searchRequest (b : BarcodeScanResults) : option Verification :=
  match displayValue b with
  | Some v => Some {| barcode := b; isMatched := isMatch v |}
  | None => None
  end.

(** A computed property name [[x]] with [x] undefined is the key
    ["undefined"]. *)
Definition toPropertyKey (x : option string) : string :=
  match x with Some s => s | None => "undefined" end.

(** The argument of [tap]: the effects in the order in which they are
    performed, and the store after [updateBarcodeSearchStatus]. *)
Definition searchCompleted (state : BarcodeScannerState) (v : Verification)
  : list Effect * BarcodeScannerState :=
  ((if isMatched v
    then (if negb KEEP_SCANNING_AFTER_MATCH then [StopScan] else [])
         ++ [Beep matched]
    else [Beep rejected]),
   updateBarcodeSearchStatus state
     (toPropertyKey (displayValue (barcode v)))
     (if isMatched v then matched else rejected)).

(** ** Selectors *)

(** [item.count >= POSITIVE_SCAN_THRESHOLD] *)
Definition meetsThreshold (item : BarcodeScanResults) : bool :=
  match count item with
  | Some (Num z) => POSITIVE_SCAN_THRESHOLD <=? z
  | _ => false
  end.

(** [barcode.count === POSITIVE_SCAN_THRESHOLD] *)
Definition atThreshold (item : BarcodeScanResults) : bool :=
  match count item with
  | Some (Num z) => z =? POSITIVE_SCAN_THRESHOLD
  | _ => false
  end.

(** [(a, b) => b.count - a.count]; [sort] reads a [NaN] result as [0]. *)
Definition compareFn (a b : BarcodeScanResults) : Z :=
  match count b, count a with
  | Some (Num y), Some (Num x) => y - x
  | _, _ => 0
  end.

(** [Array.prototype.sort] is stable; on the arrays that reach it here (every
    count is a number, by the filter before it) the comparator is a total
    preorder, and the stable sort of such an array is unique.  It is written
    as an insertion sort over elements that may carry a tag. *)
Section Sort.
Context {A : Type} (item : A -> BarcodeScanResults).

Fixpoint insertSorted (x : A) (l : list A) : list A :=
  match l with
  | [] => [x]
  | y :: l' =>
      if compareFn (item x) (item y) <=? 0 then x :: l
      else y :: insertSorted x l'
  end.

Fixpoint sort (l : list A) : list A :=
  match l with
  | [] => []
  | x :: l' => insertSorted x (sort l')
  end.

(** [.filter(item => item.count >= POSITIVE_SCAN_THRESHOLD)
     .sort((a, b) => b.count - a.count)] *)
Definition filterAndRank (l : list A) : list A :=
  sort (filter (fun x => meetsThreshold (item x)) l).
End Sort.

(** [barcodes.slice(-1)[0]] *)
Definition lastOf {A} (l : list A) : option A := last (map Some l) None.

(** [barcodesFilteredArray$] (lines 128-134 and 413-420) as a function of
    the snapshot. *)
Definition barcodesFilteredArray (barcodes : JsObject.t BarcodeScanResults)
  : list BarcodeScanResults :=
  filterAndRank (fun r => r) (JsObject.values barcodes).

(** [barcodesView$] (lines 143-151 and 432-441) *)
Definition barcodesView (barcodes : JsObject.t BarcodeScanResults) :=
  map (fun b => (count b, displayValue b, searchStatus b))
      (barcodesFilteredArray barcodes).

(** ** Sessions

    A session is the component between its construction and its destruction,
    driven by two kinds of events, each handled in a task of its own: a
    [barcodeScanned] event of the plugin, and the expiry of the delay of one
    of the verifications in flight ([mergeMap] keeps them all, so they may
    complete in any order).  The selectors run to completion inside the task
    that changed the state. *)

Record Env := {
  now : Z;                (* [new Date()] in the updater *)
  canvasReady : bool;     (* [this.canvas] and its 2d context exist *)
  clock : nat -> Z        (* [new Date()] for the n-th box of [drawBoxes] *)
}.

Inductive Event :=
| barcodeScanned (env : Env) (b : Barcode)
| searchReturned (env : Env) (i : nat).

Definition removeAt {A} (i : nat) (l : list A) : list A :=
  firstn i l ++ skipn (S i) l.

Section Run.
Context {St : Type} (step : St -> Event -> option St).

(** [None]: an uncaught [TypeError] ended the run. *)
Fixpoint run (s : St) (events : list Event) : option St :=
  match events with
  | [] => Some s
  | e :: events' =>
      match step s e with
      | Some s' => run s' events'
      | None => None
      end
  end.
End Run.

(** *** First revision (lines 1-261) *)

Module Rev1.
Definition API_LATENCY_MS : Z := 250.

(** [updateScanResults], lines 154-171. *)
Definition updateScanResults (state : BarcodeScannerState) (barcode : Barcode)
  : BarcodeScannerState :=
  let k := Barcode.displayValue barcode in
  let cur := get (scanResults state) k in
  {| scanResults :=
      JsObject.set (scanResults state) k
        (if truthy cur
         then set_count (plus1 (count (fields cur))) (fields cur)
         else set_searchStatus scanned
                (set_count (Num 1) (ofBarcode barcode))) |}.

(** [newBarcode$], lines 136-141: what it emits for one emission of
    [scanResults$]. *)
Definition newBarcode (barcodes : JsObject.t BarcodeScanResults)
  : option BarcodeScanResults :=
  match lastOf (barcodesFilteredArray barcodes) with
  | Some b => if atThreshold b then Some b else None
  | None => None
  end.

Record Session := {
  state : BarcodeScannerState;
  pending : list Verification;   (* verifications in flight *)
  log : list Effect;             (* oldest first *)
  shown : nat                    (* length of the array [pairwise] holds *)
}.

(** After the constructor (lines 233-248): both subscriptions have seen
    the empty array. *)
Definition start : Session :=
  {| state := initialState; pending := []; log := []; shown := 0 |}.

(** The store has been replaced by [state']: the subscribers run in the
    order of their subscription, [searchNewBarcodes] before the [pairwise]
    beep.  [done] are the effects performed before the store changed. *)
Definition notify (s : Session) (state' : BarcodeScannerState)
    (pending' : list Verification) (done : list Effect) : option Session :=
  let arr := barcodesFilteredArray (scanResults state') in
  let beeps :=
    if Nat.eqb (shown s) (List.length arr) then [] else [Beep scanned] in
  match newBarcode (scanResults state') with
  | None =>
      Some {| state := state'; pending := pending';
              log := log s ++ done ++ beeps; shown := List.length arr |}
  | Some b =>
      match searchRequest b with
      | None => None
      | Some v =>
          Some {| state := state'; pending := pending' ++ [v];
                  log := log s ++ done ++ [ApiCall v] ++ beeps;
                  shown := List.length arr |}
      end
  end.

Definition step (s : Session) (e : Event) : option Session :=
  match e with
  | barcodeScanned _ b =>
      notify s (updateScanResults (state s) b) (pending s) []
  | searchReturned _ i =>
      match nth_error (pending s) i with
      | None => Some s
      | Some v =>
          let (done, state') := searchCompleted (state s) v in
          notify s state' (removeAt i (pending s)) done
      end
  end.
End Rev1.

(** *** Second revision (lines 262-618) *)

Module Rev2.
Definition API_LATENCY_MS : Z := 2500.

(** [updateScanResults], lines 444-464; [now] is the value of [new Date()]. *)
Definition updateScanResults (now : Z) (state : BarcodeScannerState)
    (barcode : Barcode) : BarcodeScannerState :=
  let k := Barcode.displayValue barcode in
  let cur := get (scanResults state) k in
  {| scanResults :=
      JsObject.set (scanResults state) k
        (if truthy cur
         then set_timestamp now
                (set_count (plus1 (count (fields cur)))
                   (assign (fields cur) barcode))
         else set_timestamp now
                (set_searchStatus scanned
                   (set_count (Num 1) (ofBarcode barcode)))) |}.

(** [drawBoxes], lines 518-558.  [isStale] reads [timestamp.getTime()]
    before [cornerPoints] is looked at: a record without timestamp raises
    a [TypeError] ([None]).  [StrokePath points] stands for the closed
    polygon through [points], every coordinate multiplied by the scale
    0.36. *)
Definition isStale (time : Z) (r : BarcodeScanResults) : option bool :=
  match timestamp r with
  | Some t => Some (time - t >? 1000)
  | None => None
  end.

Definition drawBox (time : Z) (r : BarcodeScanResults)
  : option (list Effect) :=
  match isStale time r with
  | None => None
  | Some stale =>
      Some (match cornerPoints r with
            | Some points => if negb stale then [StrokePath points] else []
            | None => []
            end)
  end.

Fixpoint drawEach (clock : nat -> Z) (i : nat)
    (filteredScanResults : list BarcodeScanResults) : option (list Effect) :=
  match filteredScanResults with
  | [] => Some []
  | r :: rest =>
      match drawBox (clock i) r with
      | None => None
      | Some ops =>
          match drawEach clock (S i) rest with
          | None => None
          | Some ops' => Some (ops ++ ops')
          end
      end
  end.

Definition drawBoxes (env : Env)
    (filteredScanResults : list BarcodeScanResults) : option (list Effect) :=
  if canvasReady env
  then option_map (cons ClearRect) (drawEach (clock env) 0 filteredScanResults)
  else Some [].

(** The selectors of this revision end in [distinctUntilChanged], which
    compares object identities.  [identity] gives, for every key of the
    store, the allocation number of the object stored under it; the
    elements of the ranked array are tagged with it. *)
Definition tagged (identity : JsObject.t nat)
    (barcodes : JsObject.t BarcodeScanResults)
  : list (nat * BarcodeScanResults) :=
  combine (JsObject.values identity) (JsObject.values barcodes).

Definition sameObject (a b : option nat) : bool :=
  match a, b with
  | Some x, Some y => Nat.eqb x y
  | None, None => true
  | _, _ => false
  end.

(** [newBarcode$], lines 422-430.  [selected] is the identity of the value
    the inner [select] emitted last ([None]: [undefined]).  The result is
    the new value of [selected] and what [newBarcode$] emits. *)
Definition newBarcode (selected : option nat)
    (ranked : list (nat * BarcodeScanResults))
  : option nat * option BarcodeScanResults :=
  let cur := lastOf ranked in
  (option_map fst cur,
   if sameObject (option_map fst cur) selected then None
   else match cur with
        | Some (_, b) => if atThreshold b then Some b else None
        | None => None
        end).

Record Session := {
  state : BarcodeScannerState;
  pending : list Verification;   (* verifications in flight *)
  log : list Effect;             (* oldest first *)
  identity : JsObject.t nat;
  allocated : nat;               (* objects allocated so far *)
  selected : option nat
}.

(** After the constructor (lines 587-605): the selectors have seen the
    empty store. *)
Definition start : Session :=
  {| state := initialState; pending := []; log := [];
     identity := []; allocated := 0; selected := None |}.

(** The store has been replaced by [state'], with a new object under [k].
    [drawBoxes] hangs on [barcodesFilteredArray$]; [newBarcode$] is
    debounced once more and feeds [searchNewBarcodes], then the beep
    (subscriptions of lines 596 and 604). *)
Definition notify (env : Env) (s : Session) (k : string)
    (state' : BarcodeScannerState) (pending' : list Verification)
    (done : list Effect) : option Session :=
  let identity' := JsObject.set (identity s) k (allocated s) in
  let ranked := filterAndRank snd (tagged identity' (scanResults state')) in
  match drawBoxes env (barcodesFilteredArray (scanResults state')) with
  | None => None
  | Some drawn =>
      match newBarcode (selected s) ranked with
      | (sel, None) =>
          Some {| state := state'; pending := pending';
                  log := log s ++ done ++ drawn;
                  identity := identity';
                  allocated := S (allocated s);
                  selected := sel |}
      | (sel, Some b) =>
          match searchRequest b with
          | None => None
          | Some v =>
              Some {| state := state'; pending := pending' ++ [v];
                      log := log s ++ done ++ drawn
                               ++ [ApiCall v; Beep scanned];
                      identity := identity';
                      allocated := S (allocated s);
                      selected := sel |}
          end
      end
  end.

Definition step (s : Session) (e : Event) : option Session :=
  match e with
  | barcodeScanned env b =>
      notify env s (Barcode.displayValue b)
        (updateScanResults (now env) (state s) b) (pending s) []
  | searchReturned env i =>
      match nth_error (pending s) i with
      | None => Some s
      | Some v =>
          let (done, state') := searchCompleted (state s) v in
          notify env s (toPropertyKey (displayValue (barcode v)))
            state' (removeAt i (pending s)) done
      end
  end.
End Rev2.

(** ** Auxiliary definitions for the statements *)


(** The observable [mergeMap] subscribes to (lines 191-196 and 484-489):
    the request and the delay after which it is delivered; [rnd] is the
    value of [Math.random()]. *)
Definition searchCall (latency : Z) (rnd : Q) (b : BarcodeScanResults)
  : option (Z * Verification) :=
  option_map (fun v => (latency + Qfloor (rnd * inject_Z latency), v))
             (searchRequest b).

(** Successive detections, oldest first. *)
Definition scanAll1 (state : BarcodeScannerState) (barcodes : list Barcode) :=
  fold_left Rev1.updateScanResults barcodes state.

Definition scanAll2 (state : BarcodeScannerState)
    (detections : list (Z * Barcode)) :=
  fold_left (fun st d => Rev2.updateScanResults (fst d) st (snd d))
            detections state.

(** The count stored for a value, and the count one more detection of it
    stores. *)
Definition countAt (state : BarcodeScannerState) (v : string)
  : option (option jsnumber) :=
  option_map count (JsObject.own_get (scanResults state) v).



Definition countAfter (state : BarcodeScannerState) (v : string)
  : option jsnumber :=
  match get (scanResults state) v with
  | Own r => Some (plus1 (count r))
  | Inherited => Some NaN
  | Undefined => Some (Num 1)
  end.

(** Ranking: [x] belongs behind [y]; [x] has count [c]; [x] may stand
    before [y] in an array ranked by count. *)
Definition behind {A} (item : A -> BarcodeScanResults) (x y : A) : bool :=
  0 <? compareFn (item x) (item y).

Definition hasCount {A} (item : A -> BarcodeScanResults) (c : Z) (x : A)
  : bool :=
  match count (item x) with Some (Num z) => z =? c | _ => false end.

Definition descending {A} (item : A -> BarcodeScanResults) (x y : A)
  : Prop :=
  exists cx cy,
    count (item x) = Some (Num cx) /\ count (item y) = Some (Num cy)
    /\ cy <= cx.

(** Every record that can enter the ranked array has a timestamp. *)
Definition timed (barcodes : JsObject.t BarcodeScanResults) : Prop :=
  forall k r, In (k, r) barcodes -> meetsThreshold r = true ->
              timestamp r <> None.

(** The values for which a verification was requested, oldest first. *)
Definition requests (log : list Effect) : list (option string) :=
  flat_map (fun e => match e with
                     | ApiCall c => [displayValue (barcode c)]
                     | _ => []
                     end) log.

(** The status a completed verification of [v] writes. *)
Definition verdict (v : string) : BarcodeSearchStatus :=
  if isMatch v then matched else rejected.

(** What holds of the records of a session.  A record under a name of
    [Object.prototype] was created by the branch for known values: its count
    is [NaN].  Any other record carries its key as [displayValue], and its
    status is [Scanned] or the verdict on its value. *)
Definition recordOk (k : string) (r : BarcodeScanResults) : Prop :=
  if inherited k then count r = Some NaN
  else displayValue r = Some k
       /\ (searchStatus r = Some scanned \/ searchStatus r = Some (verdict k)).

Definition storeOk (barcodes : JsObject.t BarcodeScanResults) : Prop :=
  forall k r, In (k, r) barcodes -> recordOk k r.

(** A verification in flight is for a value of the store and carries the
    verdict on it. *)
Definition requestOk (barcodes : JsObject.t BarcodeScanResults)
    (c : Verification) : Prop :=
  exists k r,
    displayValue (barcode c) = Some k
    /\ inherited k = false
    /\ isMatched c = isMatch k
    /\ JsObject.own_get barcodes k = Some r.

Definition sessionOk (state : BarcodeScannerState)
    (pending : list Verification) : Prop :=
  storeOk (scanResults state)
  /\ forall c, In c pending -> requestOk (scanResults state) c.

(** The store after the [i]-th verification in flight has completed. *)
Definition completedAt (state : BarcodeScannerState)
    (pending : list Verification) (i : nat) : BarcodeScannerState :=
  match nth_error pending i with
  | Some c => snd (searchCompleted state c)
  | None => state
  end.

(** The life of a status in the sessions of a component, given by its
    transition function, its initial session and the projection to the
    store: every sequence of events can be run; a value that is not a name
    of [Object.prototype] has the status [Scanned] or the verdict on it; and
    once it has the verdict it keeps it whatever happens next. *)
Definition statusLifecycle {St : Type} (step : St -> Event -> option St)
    (start : St) (store : St -> BarcodeScannerState) : Prop :=
  forall events,
  exists s,
    run step start events = Some s
    /\ forall k r,
         inherited k = false ->
         JsObject.own_get (scanResults (store s)) k = Some r ->
         (searchStatus r = Some scanned \/ searchStatus r = Some (verdict k))
         /\ (searchStatus r <> Some scanned ->
             forall events',
             exists s' r',
               run step s events' = Some s'
               /\ JsObject.own_get (scanResults (store s')) k = Some r'
               /\ searchStatus r' = searchStatus r).

(** ** Sample data *)

Definition square : CornerPoints := [(0, 0); (100, 0); (100, 100); (0, 100)].
Definition shifted : CornerPoints := [(5, 5); (105, 5); (105, 105); (5, 105)].

(** An event with the given corner points, or without [cornerPoints]
    property. *)
Definition qrCode (value : string) (points : option CornerPoints) : Barcode :=
  {| Barcode.bytes := Absent;
     Barcode.cornerPoints :=
       match points with Some p => Present p | None => Absent end;
     Barcode.displayValue := value; Barcode.format := "QR_CODE";
     Barcode.rawValue := value; Barcode.valueType := "TEXT" |}.



(** An event whose [cornerPoints] property is there with the value
    [undefined]. *)
Definition qrCodeUndefinedPoints (value : string) : Barcode :=
  {| Barcode.bytes := Absent; Barcode.cornerPoints := PresentUndefined;
     Barcode.displayValue := value; Barcode.format := "QR_CODE";
     Barcode.rawValue := value; Barcode.valueType := "TEXT" |}.

Definition atTime (t : Z) : Env :=
  {| now := t; canvasReady := true; clock := fun _ => t |}.

(** Three detections of one value, 40 ms apart, whose events have no
    [cornerPoints] property. *)
Definition threeScans (v : string) : list Event :=
  [ barcodeScanned (atTime 0) (qrCode v None);
    barcodeScanned (atTime 40) (qrCode v None);
    barcodeScanned (atTime 80) (qrCode v None) ].

(** ** Further definitions for the statements *)

(** The values detected by a sequence of events, oldest first, and how
    often [v] was detected. *)
Definition detected (events : list Event) : list string :=
  flat_map (fun e => match e with
                     | barcodeScanned _ b => [Barcode.displayValue b]
                     | searchReturned _ _ => []
                     end) events.

Definition detections (v : string) (events : list Event) : nat :=
  count_occ string_dec (detected events) v.

(** The requests of a log, the number of completed verifications (each one
    beeps [Matched] or [Rejected]) and the number of [Scanned] beeps. *)
Definition calls (log : list Effect) : list Verification :=
  flat_map (fun e => match e with ApiCall c => [c] | _ => [] end) log.

Definition isCompletion (e : Effect) : bool :=
  match e with Beep matched | Beep rejected => true | _ => false end.

Definition isScannedBeep (e : Effect) : bool :=
  match e with Beep scanned => true | _ => false end.

Definition completions (log : list Effect) : nat :=
  List.length (filter isCompletion log).

Definition scannedBeeps (log : list Effect) : nat :=
  List.length (filter isScannedBeep log).

(** The two revisions as instances of one interface: the session type with
    its transition function and projections, the detection updater, and what
    the revision needs of a store besides [sessionOk]. *)
Record Component := {
  session : Type;
  stepOf : session -> Event -> option session;
  startOf : session;
  stateOf : session -> BarcodeScannerState;
  pendingOf : session -> list Verification;
  logOf : session -> list Effect;
  updateOf : Env -> BarcodeScannerState -> Barcode -> BarcodeScannerState;
  storeInv : JsObject.t BarcodeScanResults -> Prop
}.

Definition rev1 : Component :=
  {| session := Rev1.Session; stepOf := Rev1.step; startOf := Rev1.start;
     stateOf := Rev1.state; pendingOf := Rev1.pending; logOf := Rev1.log;
     updateOf := fun _ => Rev1.updateScanResults;
     storeInv := fun _ => True |}.

Definition rev2 : Component :=
  {| session := Rev2.Session; stepOf := Rev2.step; startOf := Rev2.start;
     stateOf := Rev2.state; pendingOf := Rev2.pending; logOf := Rev2.log;
     updateOf := fun env => Rev2.updateScanResults (now env);
     storeInv := timed |}.

Definition runOf (C : Component) : list Event -> option (session C) :=
  run (stepOf C) (startOf C).

Definition storeOf (C : Component) (s : session C)
  : JsObject.t BarcodeScanResults :=
  scanResults (stateOf C s).

(** What holds of the sessions a run reaches. *)
Definition reached (C : Component) (s : session C) : Prop :=
  sessionOk (stateOf C s) (pendingOf C s) /\ storeInv C (storeOf C s).

(** The effects the selectors add after the store has become [state']:
    no stop and no completion beep; a request only for a record of the store
    that is at the threshold; and the requests join those in flight. *)
Definition selectorEffects (state' : BarcodeScannerState)
    (pending pending' : list Verification) (new : list Effect) : Prop :=
  (forall x, In x new -> x <> StopScan /\ isCompletion x = false)
  /\ (forall c, In (ApiCall c) new ->
        exists b, In b (JsObject.values (scanResults state'))
                  /\ atThreshold b = true /\ searchRequest b = Some c)
  /\ pending' = pending ++ calls new.

(** What one event does to a session [s] of a component, giving [s']. *)
Definition eventDone (C : Component) (s : session C) (e : Event)
    (s' : session C) : Prop :=
  match e with
  | barcodeScanned env b =>
      stateOf C s' = updateOf C env (stateOf C s) b
      /\ exists new,
           logOf C s' = logOf C s ++ new
           /\ selectorEffects (stateOf C s') (pendingOf C s) (pendingOf C s') new
  | searchReturned env i =>
      match nth_error (pendingOf C s) i with
      | None => s' = s
      | Some c =>
          stateOf C s' = snd (searchCompleted (stateOf C s) c)
          /\ exists new,
               logOf C s'
                 = logOf C s ++ fst (searchCompleted (stateOf C s) c) ++ new
               /\ selectorEffects (stateOf C s')
                    (removeAt i (pendingOf C s)) (pendingOf C s') new
      end
  end.

(** The laws of the detection updater the two revisions share. *)
Definition updateLaws
    (update : BarcodeScannerState -> Barcode -> BarcodeScannerState) : Prop :=
  forall state b,
    (exists r,
       scanResults (update state b)
       = JsObject.set (scanResults state) (Barcode.displayValue b) r)
    /\ countAt (update state b) (Barcode.displayValue b)
       = Some (countAfter state (Barcode.displayValue b)).

(** After the events [evs] the keys of the store are the detected values,
    each once. *)
Definition keysInv (C : Component) (evs : list Event) (s : session C)
  : Prop :=
  NoDup (JsObject.keys (storeOf C s))
  /\ forall k, In k (JsObject.keys (storeOf C s)) <-> In k (detected evs).

(** After the events [evs] the count of a value is the number of its
    detections; under a name of [Object.prototype] it is [NaN]. *)
Definition countInv (C : Component) (evs : list Event) (s : session C)
  : Prop :=
  forall k,
    countAt (stateOf C s) k
    = match detections k evs with
      | O => None
      | S n => Some (Some (if inherited k then NaN else Num (Z.of_nat (S n))))
      end.

Definition keysAreDetected (C : Component) : Prop :=
  forall events, exists s, runOf C events = Some s /\ keysInv C events s.

Definition countsAreDetections (C : Component) : Prop :=
  forall events, exists s, runOf C events = Some s /\ countInv C events s.

(** A component starts with the empty store, nothing in flight and an
    empty log. *)
Definition startsEmpty (C : Component) : Prop :=
  stateOf C (startOf C) = initialState
  /\ pendingOf C (startOf C) = [] /\ logOf C (startOf C) = [].

(** Every request of the log was made for a record at the threshold, of a
    value detected at least three times, and carries the verdict on it. *)
Definition requestsAtThreshold (C : Component) : Prop :=
  forall events,
  exists s,
    runOf C events = Some s
    /\ forall c, In (ApiCall c) (logOf C s) ->
         exists k,
           displayValue (barcode c) = Some k
           /\ inherited k = false
           /\ count (barcode c) = Some (Num POSITIVE_SCAN_THRESHOLD)
           /\ isMatched c = isMatch k
           /\ (3 <= detections k events)%nat.

(** Without a detected value that matches, the scan is never stopped and
    the cue of a match is never played. *)
Definition stopsOnlyOnMatch (C : Component) : Prop :=
  forall events,
    (forall v, In v (detected events) -> isMatch v = false) ->
    exists s,
      runOf C events = Some s
      /\ ~ In StopScan (logOf C s)
      /\ ~ In (Beep matched) (logOf C s).

(** Every request is in flight or has completed, once. *)
Definition requestsConserved (C : Component) : Prop :=
  forall events,
  exists s,
    runOf C events = Some s
    /\ List.length (calls (logOf C s))
       = (List.length (pendingOf C s) + completions (logOf C s))%nat.

(** The rows of the list shown: each is for a detected value that is not a
    name of [Object.prototype], with the number of its detections, at least
    three, as count and with a status; no value has two rows. *)
Definition viewWellFormed (C : Component) : Prop :=
  forall events,
  exists s,
    runOf C events = Some s
    /\ NoDup (map (fun row => snd (fst row)) (barcodesView (storeOf C s)))
    /\ forall row, In row (barcodesView (storeOf C s)) ->
         exists k st,
           row = (Some (Num (Z.of_nat (detections k events))), Some k, Some st)
           /\ inherited k = false
           /\ (3 <= detections k events)%nat
           /\ (st = scanned \/ st = verdict k).

(** Every detected value that is not a name of [Object.prototype] and has
    been detected three times or more has a row in the list shown. *)
Definition viewComplete (C : Component) : Prop :=
  forall events,
  exists s,
    runOf C events = Some s
    /\ forall k,
         inherited k = false ->
         (3 <= detections k events)%nat ->
         exists st,
           In (Some (Num (Z.of_nat (detections k events))), Some k, Some st)
              (barcodesView (storeOf C s)).

(** [r'] is [r] up to the status. *)
Definition sameButStatus (r r' : BarcodeScanResults) : Prop :=
  set_searchStatus scanned r' = set_searchStatus scanned r.

(** [r'] is [r] up to the count and the status. *)
Definition sameButCountAndStatus (r r' : BarcodeScanResults) : Prop :=
  set_count NaN (set_searchStatus scanned r')
  = set_count NaN (set_searchStatus scanned r).

(** [e] is not a detection of [k]; [e] is not a detection of [k] whose
    event has a [cornerPoints] property (with a value or [undefined]). *)
Definition notDetectionOf (k : string) (e : Event) : Prop :=
  match e with
  | barcodeScanned _ b => Barcode.displayValue b <> k
  | searchReturned _ _ => True
  end.

Definition noPointsFor (k : string) (e : Event) : Prop :=
  match e with
  | barcodeScanned _ b =>
      Barcode.displayValue b = k -> Barcode.cornerPoints b = Absent
  | searchReturned _ _ => True
  end.

(** Events that are not detections of [k] leave its record as it is, up to
    the status; a value without record stays without. *)
Definition othersFramed (C : Component) : Prop :=
  forall k evs evs',
    Forall (notDetectionOf k) evs' ->
    exists s s',
      runOf C evs = Some s
      /\ runOf C (evs ++ evs') = Some s'
      /\ match JsObject.own_get (storeOf C s) k with
         | Some r =>
             exists r',
               JsObject.own_get (storeOf C s') k = Some r'
               /\ sameButStatus r r'
         | None => JsObject.own_get (storeOf C s') k = None
         end.

Definition b2n (b : bool) : nat := if b then 1 else 0.


(** * Properties *)

(** ** Facts about objects used as maps *)

Section JsObjectFacts.
Context {V : Type}.
Implicit Types (o : JsObject.t V) (k : string) (v : V).

Lemma own_get_overwrite o k v k' :
  JsObject.own_get (JsObject.overwrite k v o) k' =
  if String.eqb k k'
  then match JsObject.own_get o k' with Some _ => Some v | None => None end
  else JsObject.own_get o k'.
Proof.
  induction o as [|[k0 v0] o IH]; simpl.
  - now destruct (String.eqb k k').
  - destruct (String.eqb_spec k0 k) as [->|Hk0]; simpl.
    + destruct (String.eqb_spec k k'); [reflexivity | exact IH].
    + destruct (String.eqb_spec k0 k') as [->|Hk0'].
      * destruct (String.eqb_spec k k'); [congruence | reflexivity].
      * exact IH.
Qed.

Lemma own_get_app o o' k :
  JsObject.own_get (o ++ o') k =
  match JsObject.own_get o k with
  | Some x => Some x
  | None => JsObject.own_get o' k
  end.
Proof.
  induction o as [|[k0 v0] o IH]; simpl; [reflexivity|].
  now destruct (String.eqb k0 k).
Qed.

Lemma own_get_insert_index n o k v k' :
  JsObject.own_get o k = None ->
  JsObject.own_get (JsObject.insert_index n k v o) k' =
  if String.eqb k k' then Some v else JsObject.own_get o k'.
Proof.
  induction o as [|[k0 v0] o IH]; simpl; intros Hnone.
  - reflexivity.
  - destruct (String.eqb_spec k0 k) as [->|Hk0]; [discriminate|].
    destruct (JsObject.array_index k0) as [n'|]; [destruct (n' <? n)%N|];
      simpl; try reflexivity.
    rewrite (IH Hnone).
    destruct (String.eqb_spec k0 k') as [->|]; [|reflexivity].
    destruct (String.eqb_spec k k'); [congruence | reflexivity].
Qed.

Lemma own_get_set o k v k' :
  JsObject.own_get (JsObject.set o k v) k' =
  if String.eqb k k' then Some v else JsObject.own_get o k'.
Proof.
  unfold JsObject.set.
  destruct (JsObject.own_get o k) as [x|] eqn:Hk.
  - rewrite own_get_overwrite.
    destruct (String.eqb_spec k k') as [<-|]; [now rewrite Hk | reflexivity].
  - unfold JsObject.define_new.
    destruct (JsObject.array_index k) as [n|].
    + now apply own_get_insert_index.
    + rewrite own_get_app. simpl.
      destruct (String.eqb_spec k k') as [<-|].
      * now rewrite Hk.
      * now destruct (JsObject.own_get o k').
Qed.

Lemma own_get_set_eq o k v :
  JsObject.own_get (JsObject.set o k v) k = Some v.
Proof. rewrite own_get_set. now rewrite String.eqb_refl. Qed.

Lemma own_get_set_ne o k v k' :
  k <> k' -> JsObject.own_get (JsObject.set o k v) k' = JsObject.own_get o k'.
Proof.
  intros H. rewrite own_get_set.
  now destruct (String.eqb_spec k k').
Qed.

Lemma own_get_In o k v : JsObject.own_get o k = Some v -> In (k, v) o.
Proof.
  induction o as [|[k0 v0] o IH]; simpl; [discriminate|].
  destruct (String.eqb_spec k0 k) as [->|]; intros H.
  - left. congruence.
  - right. auto.
Qed.

Lemma In_own_get o k v :
  In (k, v) o -> exists v', JsObject.own_get o k = Some v'.
Proof.
  induction o as [|[k0 v0] o IH]; simpl; [tauto|].
  intros [H|H].
  - inversion H; subst. rewrite String.eqb_refl. eauto.
  - destruct (String.eqb k0 k); eauto.
Qed.

Lemma In_overwrite o k v k' v' :
  In (k', v') (JsObject.overwrite k v o) ->
  (k' = k /\ v' = v) \/ (k' <> k /\ In (k', v') o).
Proof.
  induction o as [|[k0 v0] o IH]; simpl; [tauto|].
  intros [H|H].
  - destruct (String.eqb_spec k0 k) as [->|Hne]; inversion H; subst; auto.
  - destruct (IH H) as [?|[? ?]]; auto.
Qed.

Lemma In_insert_index n o k v k' v' :
  In (k', v') (JsObject.insert_index n k v o) ->
  (k' = k /\ v' = v) \/ In (k', v') o.
Proof.
  induction o as [|[k0 v0] o IH]; simpl.
  - intros [H|[]]. inversion H; auto.
  - destruct (JsObject.array_index k0) as [n'|]; [destruct (n' <? n)%N|];
      simpl; intros H.
    + destruct H as [H|H]; [auto|]. destruct (IH H); auto.
    + destruct H as [H|H]; [inversion H|]; auto.
    + destruct H as [H|H]; [inversion H|]; auto.
Qed.

Lemma In_set o k v k' v' :
  In (k', v') (JsObject.set o k v) ->
  (k' = k /\ v' = v) \/ (k' <> k /\ In (k', v') o).
Proof.
  unfold JsObject.set.
  destruct (JsObject.own_get o k) as [x|] eqn:Hk.
  - apply In_overwrite.
  - intros H.
    assert (H' : (k' = k /\ v' = v) \/ In (k', v') o).
    { unfold JsObject.define_new in H.
      destruct (JsObject.array_index k).
      - eapply In_insert_index; eauto.
      - apply in_app_or in H. destruct H as [H|[H|[]]]; [auto|].
        inversion H; auto. }
    destruct H' as [?|Hin]; [auto|].
    destruct (string_dec k' k) as [->|]; [|auto].
    apply In_own_get in Hin. destruct Hin. congruence.
Qed.
End JsObjectFacts.

(** The keys after an update depend on the keys before it only. *)
Section Keys.
Context {V W : Type}.

Lemma own_get_keys (o : JsObject.t V) : forall (o' : JsObject.t W) k,
  JsObject.keys o = JsObject.keys o' ->
  (JsObject.own_get o k = None <-> JsObject.own_get o' k = None).
Proof.
  induction o as [|[k0 v0] o IH]; intros [|[k0' w0] o'] k; simpl;
    try discriminate; [tauto|].
  intros H. injection H as <- H.
  destruct (String.eqb k0 k); [split; discriminate | now apply IH].
Qed.

Lemma keys_insert_index n k v w (o : JsObject.t V) :
  forall (o' : JsObject.t W),
  JsObject.keys o = JsObject.keys o' ->
  JsObject.keys (JsObject.insert_index n k v o)
  = JsObject.keys (JsObject.insert_index n k w o').
Proof.
  induction o as [|[k0 v0] o IH]; intros [|[k0' w0] o']; simpl;
    try discriminate; [reflexivity|].
  intros H. injection H as <- H.
  destruct (JsObject.array_index k0) as [n'|]; [destruct (n' <? n)%N|];
    simpl; f_equal; auto.
  all: now f_equal.
Qed.
End Keys.

Lemma keys_overwrite {V} k v (o : JsObject.t V) :
  JsObject.keys (JsObject.overwrite k v o) = JsObject.keys o.
Proof.
  induction o as [|[k0 v0] o IH]; simpl; [reflexivity|].
  rewrite IH. now destruct (String.eqb k0 k).
Qed.

Lemma keys_set {V W} (o : JsObject.t V) (o' : JsObject.t W) k v w :
  JsObject.keys o = JsObject.keys o' ->
  JsObject.keys (JsObject.set o k v) = JsObject.keys (JsObject.set o' k w).
Proof.
  intros H. unfold JsObject.set.
  pose proof (own_get_keys o o' k H) as Hnone.
  destruct (JsObject.own_get o k) as [x|], (JsObject.own_get o' k) as [y|].
  - now rewrite !keys_overwrite.
  - discriminate (proj2 Hnone eq_refl).
  - discriminate (proj1 Hnone eq_refl).
  - unfold JsObject.define_new. destruct (JsObject.array_index k).
    + now apply keys_insert_index.
    + unfold JsObject.keys in *. rewrite !map_app, H. reflexivity.
Qed.

(** ** The status updater *)

Lemma updateBarcodeSearchStatus_lookup state v st k :
  JsObject.own_get (scanResults (updateBarcodeSearchStatus state v st)) k =
  if String.eqb v k
  then Some (set_searchStatus st (fields (get (scanResults state) v)))
  else JsObject.own_get (scanResults state) k.
Proof. unfold updateBarcodeSearchStatus. simpl. apply own_get_set. Qed.

Lemma get_own o k r : JsObject.own_get o k = Some r -> get o k = Own r.
Proof. unfold get. now intros ->. Qed.

Lemma fields_get_absent o k :
  JsObject.own_get o k = None -> fields (get o k) = emptyObject.
Proof. unfold get. intros ->. now destruct (inherited k). Qed.

(** C4: applying [updateBarcodeSearchStatus] to a value whose record is
    already [Matched] or [Rejected] leaves [count], [cornerPoints] and
    [timestamp] of that record as they were.  The updater is a total
    function: it cannot throw. *)
Theorem updateBarcodeSearchStatus_terminal_frame :
  forall state v r st,
    JsObject.own_get (scanResults state) v = Some r ->
    searchStatus r = Some matched \/ searchStatus r = Some rejected ->
    exists r',
      JsObject.own_get (scanResults (updateBarcodeSearchStatus state v st)) v
        = Some r'
      /\ count r' = count r
      /\ cornerPoints r' = cornerPoints r
      /\ timestamp r' = timestamp r.
Proof.
  intros state v r st Hr _.
  rewrite updateBarcodeSearchStatus_lookup, String.eqb_refl.
  rewrite (get_own _ _ _ Hr). simpl.
  eexists; repeat split.
Qed.

Lemma updateBarcodeSearchStatus_terminal_frame_witness :
  let state :=
    updateBarcodeSearchStatus
      (Rev2.updateScanResults 7 initialState (qrCode "S123" (Some square)))
      "S123" matched in
  exists r',
    JsObject.own_get
      (scanResults (updateBarcodeSearchStatus state "S123" rejected)) "S123"
      = Some r'
    /\ count r' = Some (Num 1)
    /\ cornerPoints r' = Some square
    /\ timestamp r' = Some 7.
Proof.
  intros state.
  destruct (updateBarcodeSearchStatus_terminal_frame state "S123"
              (set_searchStatus matched
                 (set_timestamp 7 (set_searchStatus scanned
                    (set_count (Num 1) (ofBarcode (qrCode "S123" (Some square)))))))
              rejected) as (r' & H1 & H2 & H3 & H4).
  - reflexivity.
  - left; reflexivity.
  - exists r'. repeat split; assumption.
Defined.

(** ** Recording a detection *)

Lemma updateScanResults1_lookup state b k :
  JsObject.own_get (scanResults (Rev1.updateScanResults state b)) k =
  if String.eqb (Barcode.displayValue b) k
  then Some (let cur := get (scanResults state) (Barcode.displayValue b) in
             if truthy cur
             then set_count (plus1 (count (fields cur))) (fields cur)
             else set_searchStatus scanned (set_count (Num 1) (ofBarcode b)))
  else JsObject.own_get (scanResults state) k.
Proof. unfold Rev1.updateScanResults. simpl. apply own_get_set. Qed.

Lemma updateScanResults2_lookup t state b k :
  JsObject.own_get (scanResults (Rev2.updateScanResults t state b)) k =
  if String.eqb (Barcode.displayValue b) k
  then Some (let cur := get (scanResults state) (Barcode.displayValue b) in
             if truthy cur
             then set_timestamp t
                    (set_count (plus1 (count (fields cur)))
                       (assign (fields cur) b))
             else set_timestamp t
                    (set_searchStatus scanned
                       (set_count (Num 1) (ofBarcode b))))
  else JsObject.own_get (scanResults state) k.
Proof. unfold Rev2.updateScanResults. simpl. apply own_get_set. Qed.

(** C7 (as stated) fails in both revisions: the first one keeps the geometry
    of the first detection and has no time of last sight; the second one
    keeps the previous geometry when the new event has no [cornerPoints]
    property. *)
Lemma updateScanResults_geometry_not_refreshed :
  (let state := Rev1.updateScanResults initialState (qrCode "S123" (Some square)) in
   let event := qrCode "S123" (Some shifted) in
   exists r,
     JsObject.own_get (scanResults (Rev1.updateScanResults state event)) "S123"
       = Some r
     /\ cornerPoints r = Some square
     /\ cornerPoints r <> read (Barcode.cornerPoints event)
     /\ timestamp r = None)
  /\
  (let state := Rev2.updateScanResults 0 initialState (qrCode "S123" (Some square)) in
   let event := qrCode "S123" None in
   exists r,
     JsObject.own_get (scanResults (Rev2.updateScanResults 40 state event)) "S123"
       = Some r
     /\ cornerPoints r = Some square
     /\ cornerPoints r <> read (Barcode.cornerPoints event)).
Proof.
  split; eexists; (split; [reflexivity|]); repeat split; discriminate.
Qed.

(** C7 (amended): for a detection whose value is already a key of the map,
    the second revision replaces the record with a copy whose count is
    incremented by 1, whose timestamp is the current time, whose status is
    unchanged, and whose [cornerPoints] (and likewise [bytes]) are: the
    points of the event when its [cornerPoints] property has a value,
    [undefined] when the event has the property with the value
    [undefined], and the previous ones when the event has no such property;
    [format], [rawValue] and [valueType] are those of the event.  The
    first revision replaces the record with a copy in which only the count,
    incremented by 1, differs. *)
Theorem updateScanResults_present :
  forall state b r t,
    JsObject.own_get (scanResults state) (Barcode.displayValue b) = Some r ->
    (exists r',
       JsObject.own_get (scanResults (Rev2.updateScanResults t state b))
         (Barcode.displayValue b) = Some r'
       /\ count r' = Some (plus1 (count r))
       /\ (forall c, count r = Some (Num c) -> count r' = Some (Num (c + 1)))
       /\ timestamp r' = Some t
       /\ searchStatus r' = searchStatus r
       /\ cornerPoints r' =
            match Barcode.cornerPoints b with
            | Present points => Some points
            | PresentUndefined => None
            | Absent => cornerPoints r
            end
       /\ bytes r' =
            match Barcode.bytes b with
            | Present data => Some data
            | PresentUndefined => None
            | Absent => bytes r
            end
       /\ format r' = Some (Barcode.format b)
       /\ rawValue r' = Some (Barcode.rawValue b)
       /\ valueType r' = Some (Barcode.valueType b))
    /\ JsObject.own_get (scanResults (Rev1.updateScanResults state b))
         (Barcode.displayValue b) = Some (set_count (plus1 (count r)) r)
    /\ (forall c, count r = Some (Num c) ->
          count (set_count (plus1 (count r)) r) = Some (Num (c + 1))).
Proof.
  intros state b r t Hr.
  assert (Hplus : forall c, count r = Some (Num c) -> plus1 (count r) = Num (c + 1))
    by (intros c ->; reflexivity).
  split; [|split].
  - eexists. rewrite updateScanResults2_lookup, String.eqb_refl.
    rewrite (get_own _ _ _ Hr). cbn [truthy fields].
    split; [reflexivity|]. cbn.
    split; [reflexivity|].
    split; [intros c Hc; now rewrite (Hplus c Hc)|].
    repeat split.
  - rewrite updateScanResults1_lookup, String.eqb_refl.
    now rewrite (get_own _ _ _ Hr).
  - intros c Hc. simpl. now rewrite (Hplus c Hc).
Qed.

Lemma updateScanResults_present_witness :
  let state := Rev2.updateScanResults 0 initialState (qrCode "S123" (Some square)) in
  (exists r',
     JsObject.own_get
       (scanResults (Rev2.updateScanResults 40 state (qrCode "S123" (Some shifted))))
       "S123" = Some r'
     /\ count r' = Some (Num 2)
     /\ timestamp r' = Some 40
     /\ searchStatus r' = Some scanned
     /\ cornerPoints r' = Some shifted)
  /\ (exists r',
        JsObject.own_get
          (scanResults (Rev2.updateScanResults 40 state (qrCode "S123" None)))
          "S123" = Some r'
        /\ cornerPoints r' = Some square)
  /\ (exists r',
        JsObject.own_get
          (scanResults
             (Rev2.updateScanResults 40 state (qrCodeUndefinedPoints "S123")))
          "S123" = Some r'
        /\ cornerPoints r' = None).
Proof.
  intros state.
  pose (r := set_timestamp 0 (set_searchStatus scanned
               (set_count (Num 1) (ofBarcode (qrCode "S123" (Some square)))))).
  split; [|split].
  - destruct (updateScanResults_present state (qrCode "S123" (Some shifted))
                r 40 eq_refl)
      as [(r' & H1 & _ & H2 & H3 & H4 & H5 & _) _].
    exists r'. split; [exact H1|]. split; [exact (H2 1 eq_refl)|].
    repeat split; assumption.
  - destruct (updateScanResults_present state (qrCode "S123" None)
                r 40 eq_refl)
      as [(r' & H1 & _ & _ & _ & _ & H5 & _) _].
    exists r'. split; [exact H1 | exact H5].
  - destruct (updateScanResults_present state (qrCodeUndefinedPoints "S123")
                r 40 eq_refl)
      as [(r' & H1 & _ & _ & _ & _ & H5 & _) _].
    exists r'. split; [exact H1 | exact H5].
Defined.

(** ** The verification *)

Lemma prefix_app p s :
  String.prefix p s = true <-> exists rest, s = (p ++ rest)%string.
Proof.
  revert s. induction p as [|c p IH]; intros s.
  - split; [intros _; now exists s | now destruct s].
  - destruct s as [|c' s]; simpl.
    + split; [discriminate | intros [rest H]; discriminate].
    + destruct (ascii_dec c c') as [->|Hc].
      * rewrite IH. split; intros [rest H]; exists rest; congruence.
      * split; [discriminate | intros [rest H]; congruence].
Qed.

(** C10: the outcome of a verification is a function of the value alone:
    it is [true] exactly for the values that start with "S" or with "CAT",
    whatever [Math.random()] returns for the latency, so two verifications
    of the same value agree. *)
Theorem isMatch_deterministic :
  forall v,
    (isMatch v = true <->
       (exists rest, v = ("S" ++ rest)%string)
       \/ (exists rest, v = ("CAT" ++ rest)%string))
    /\ forall latency latency' rnd rnd' b b',
         displayValue b = Some v ->
         displayValue b' = Some v ->
         exists d d' call call',
           searchCall latency rnd b = Some (d, call)
           /\ searchCall latency' rnd' b' = Some (d', call')
           /\ isMatched call = isMatch v
           /\ isMatched call' = isMatch v.
Proof.
  intros v. split.
  - unfold isMatch. rewrite orb_true_iff, !prefix_app. tauto.
  - intros latency latency' rnd rnd' b b' Hb Hb'.
    unfold searchCall, searchRequest. rewrite Hb, Hb'. simpl.
    do 4 eexists. repeat split.
Qed.

Lemma isMatch_deterministic_witness :
  let seen t :=
    set_timestamp t (set_searchStatus scanned
      (set_count (Num 3) (ofBarcode (qrCode "CAT-7" None)))) in
  exists d d' call call',
    searchCall 250 (1 # 3) (seen 10) = Some (d, call)
    /\ searchCall 2500 (7 # 8) (seen 99) = Some (d', call')
    /\ isMatched call = isMatch "CAT-7"
    /\ isMatched call' = isMatch "CAT-7".
Proof.
  intros seen.
  exact (proj2 (isMatch_deterministic "CAT-7") 250 2500 (1 # 3)%Q (7 # 8)%Q
           (seen 10) (seen 99) eq_refl eq_refl).
Defined.

(** ** Counting *)

Lemma updateScanResults1_count state b v :
  Barcode.displayValue b = v ->
  countAt (Rev1.updateScanResults state b) v = Some (countAfter state v).
Proof.
  intros <-. unfold countAt, countAfter.
  rewrite updateScanResults1_lookup, String.eqb_refl.
  now destruct (get (scanResults state) (Barcode.displayValue b)).
Qed.

Lemma updateScanResults2_count t state b v :
  Barcode.displayValue b = v ->
  countAt (Rev2.updateScanResults t state b) v = Some (countAfter state v).
Proof.
  intros <-. unfold countAt, countAfter.
  rewrite updateScanResults2_lookup, String.eqb_refl.
  now destruct (get (scanResults state) (Barcode.displayValue b)).
Qed.

Lemma updateScanResults1_other state b k :
  k <> Barcode.displayValue b ->
  JsObject.own_get (scanResults (Rev1.updateScanResults state b)) k
  = JsObject.own_get (scanResults state) k.
Proof.
  intros Hk. rewrite updateScanResults1_lookup.
  destruct (String.eqb_spec (Barcode.displayValue b) k); congruence.
Qed.

Lemma updateScanResults2_other t state b k :
  k <> Barcode.displayValue b ->
  JsObject.own_get (scanResults (Rev2.updateScanResults t state b)) k
  = JsObject.own_get (scanResults state) k.
Proof.
  intros Hk. rewrite updateScanResults2_lookup.
  destruct (String.eqb_spec (Barcode.displayValue b) k); congruence.
Qed.

Lemma countAfter_number state v c :
  countAt state v = Some (Some (Num c)) ->
  countAfter state v = Some (Num (c + 1)).
Proof.
  unfold countAt, countAfter, get.
  destruct (JsObject.own_get (scanResults state) v) as [r|]; [|discriminate].
  simpl. intros H. injection H as ->. reflexivity.
Qed.

Lemma countAfter_new state v :
  countAt state v = None -> inherited v = false ->
  countAfter state v = Some (Num 1).
Proof.
  unfold countAt, countAfter, get.
  destruct (JsObject.own_get (scanResults state) v); [discriminate|].
  now intros _ ->.
Qed.

Lemma countAfter_poisoned state v :
  countAt state v = Some (Some NaN)
  \/ (countAt state v = None /\ inherited v = true) ->
  countAfter state v = Some NaN.
Proof.
  unfold countAt, countAfter, get.
  destruct (JsObject.own_get (scanResults state) v) as [r|]; simpl.
  - intros [H|[H _]]; [|discriminate]. injection H as ->. reflexivity.
  - intros [H|[_ ->]]; [discriminate | reflexivity].
Qed.

(** Repeated detections of one value whose count is a number: the count
    grows by the number of detections, and the other records stay. *)
Section Repeated.
Variable v : string.

Lemma scanAll1_other barcodes : forall state k,
  Forall (fun b => Barcode.displayValue b = v) barcodes ->
  k <> v ->
  JsObject.own_get (scanResults (scanAll1 state barcodes)) k
  = JsObject.own_get (scanResults state) k.
Proof.
  induction barcodes as [|b bs IH]; intros state k Hall Hk; [reflexivity|].
  inversion_clear Hall as [|? ? Hb Hbs].
  change (scanAll1 state (b :: bs))
    with (scanAll1 (Rev1.updateScanResults state b) bs).
  rewrite (IH _ k Hbs Hk).
  apply updateScanResults1_other. congruence.
Qed.

Lemma scanAll2_other detections : forall state k,
  Forall (fun d => Barcode.displayValue (snd d) = v) detections ->
  k <> v ->
  JsObject.own_get (scanResults (scanAll2 state detections)) k
  = JsObject.own_get (scanResults state) k.
Proof.
  induction detections as [|d ds IH]; intros state k Hall Hk; [reflexivity|].
  inversion_clear Hall as [|? ? Hd Hds].
  change (scanAll2 state (d :: ds))
    with (scanAll2 (Rev2.updateScanResults (fst d) state (snd d)) ds).
  rewrite (IH _ k Hds Hk).
  apply updateScanResults2_other. congruence.
Qed.

Lemma scanAll1_count barcodes : forall state c,
  Forall (fun b => Barcode.displayValue b = v) barcodes ->
  countAt state v = Some (Some (Num c)) ->
  countAt (scanAll1 state barcodes) v
  = Some (Some (Num (c + Z.of_nat (List.length barcodes)))).
Proof.
  induction barcodes as [|b bs IH]; intros state c Hall Hc.
  - simpl. now rewrite Z.add_0_r.
  - inversion_clear Hall as [|? ? Hb Hbs].
    change (scanAll1 state (b :: bs))
      with (scanAll1 (Rev1.updateScanResults state b) bs).
    rewrite (IH _ (c + 1) Hbs).
    + do 3 f_equal. simpl List.length. lia.
    + rewrite (updateScanResults1_count _ _ v Hb). f_equal.
      now apply countAfter_number.
Qed.

Lemma scanAll2_count detections : forall state c,
  Forall (fun d => Barcode.displayValue (snd d) = v) detections ->
  countAt state v = Some (Some (Num c)) ->
  countAt (scanAll2 state detections) v
  = Some (Some (Num (c + Z.of_nat (List.length detections)))).
Proof.
  induction detections as [|d ds IH]; intros state c Hall Hc.
  - simpl. now rewrite Z.add_0_r.
  - inversion_clear Hall as [|? ? Hd Hds].
    change (scanAll2 state (d :: ds))
      with (scanAll2 (Rev2.updateScanResults (fst d) state (snd d)) ds).
    rewrite (IH _ (c + 1) Hds).
    + do 3 f_equal. simpl List.length. lia.
    + rewrite (updateScanResults2_count _ _ _ v Hd). f_equal.
      now apply countAfter_number.
Qed.

(** The statement of the counting property that the code does satisfy:
    it needs the value not to be the name of a property of
    [Object.prototype]. *)
Lemma scanAll_count_new :
  inherited v = false ->
  forall state,
    countAt state v = None ->
    (forall b bs,
       Forall (fun b => Barcode.displayValue b = v) (b :: bs) ->
       countAt (scanAll1 state (b :: bs)) v
       = Some (Some (Num (Z.of_nat (List.length (b :: bs))))))
    /\ (forall d ds,
       Forall (fun d => Barcode.displayValue (snd d) = v) (d :: ds) ->
       countAt (scanAll2 state (d :: ds)) v
       = Some (Some (Num (Z.of_nat (List.length (d :: ds)))))).
Proof.
  intros Hv state Hnew. split.
  - intros b bs Hall. inversion_clear Hall as [|? ? Hb Hbs].
    change (scanAll1 state (b :: bs))
      with (scanAll1 (Rev1.updateScanResults state b) bs).
    rewrite (scanAll1_count bs _ 1 Hbs).
    + do 3 f_equal. simpl List.length. lia.
    + rewrite (updateScanResults1_count _ _ v Hb). f_equal.
      now apply countAfter_new.
  - intros d ds Hall. inversion_clear Hall as [|? ? Hd Hds].
    change (scanAll2 state (d :: ds))
      with (scanAll2 (Rev2.updateScanResults (fst d) state (snd d)) ds).
    rewrite (scanAll2_count ds _ 1 Hds).
    + do 3 f_equal. simpl List.length. lia.
    + rewrite (updateScanResults2_count _ _ _ v Hd). f_equal.
      now apply countAfter_new.
Qed.

(** Once the count is [NaN] it stays [NaN]. *)
Lemma scanAll1_poisoned barcodes : forall state,
  Forall (fun b => Barcode.displayValue b = v) barcodes ->
  countAt state v = Some (Some NaN) ->
  countAt (scanAll1 state barcodes) v = Some (Some NaN).
Proof.
  induction barcodes as [|b bs IH]; intros state Hall Hc; [exact Hc|].
  inversion_clear Hall as [|? ? Hb Hbs].
  change (scanAll1 state (b :: bs))
    with (scanAll1 (Rev1.updateScanResults state b) bs).
  apply IH; [exact Hbs|].
  rewrite (updateScanResults1_count _ _ v Hb). f_equal.
  apply countAfter_poisoned. now left.
Qed.

Lemma scanAll2_poisoned detections : forall state,
  Forall (fun d => Barcode.displayValue (snd d) = v) detections ->
  countAt state v = Some (Some NaN) ->
  countAt (scanAll2 state detections) v = Some (Some NaN).
Proof.
  induction detections as [|d ds IH]; intros state Hall Hc; [exact Hc|].
  inversion_clear Hall as [|? ? Hd Hds].
  change (scanAll2 state (d :: ds))
    with (scanAll2 (Rev2.updateScanResults (fst d) state (snd d)) ds).
  apply IH; [exact Hds|].
  rewrite (updateScanResults2_count _ _ _ v Hd). f_equal.
  apply countAfter_poisoned. now left.
Qed.
End Repeated.

(** C2 fails for the value "constructor" (and for the other names of
    [ObjectPrototype_keys]): [state.scanResults["constructor"]] is the
    inherited function, which is truthy, so already the first detection
    takes the branch of a known value and computes [undefined + 1].  For
    [n] detections of one value [v], in either revision: the records of the
    other values are left as they were; a count that is a number grows by
    [n]; a value that was absent gets the count [n] if [v] is not a name
    of [Object.prototype], and the count [NaN] if it is. *)
Theorem updateScanResults_repeated :
  forall v state barcodes detections,
    Forall (fun b => Barcode.displayValue b = v) barcodes ->
    Forall (fun d => Barcode.displayValue (snd d) = v) detections ->
    (forall k, k <> v ->
       JsObject.own_get (scanResults (scanAll1 state barcodes)) k
         = JsObject.own_get (scanResults state) k
       /\ JsObject.own_get (scanResults (scanAll2 state detections)) k
         = JsObject.own_get (scanResults state) k)
    /\ (forall c, countAt state v = Some (Some (Num c)) ->
         countAt (scanAll1 state barcodes) v
           = Some (Some (Num (c + Z.of_nat (List.length barcodes))))
         /\ countAt (scanAll2 state detections) v
           = Some (Some (Num (c + Z.of_nat (List.length detections)))))
    /\ (countAt state v = None -> inherited v = false ->
         (barcodes <> [] ->
          countAt (scanAll1 state barcodes) v
            = Some (Some (Num (Z.of_nat (List.length barcodes)))))
         /\ (detections <> [] ->
          countAt (scanAll2 state detections) v
            = Some (Some (Num (Z.of_nat (List.length detections))))))
    /\ (countAt state v = None -> inherited v = true ->
         (barcodes <> [] ->
          countAt (scanAll1 state barcodes) v = Some (Some NaN))
         /\ (detections <> [] ->
          countAt (scanAll2 state detections) v = Some (Some NaN))).
Proof.
  intros v state barcodes detections Hbs Hds.
  split; [|split; [|split]].
  - intros k Hk. split.
    + now apply scanAll1_other with (v := v).
    + now apply scanAll2_other with (v := v).
  - intros c Hc. split.
    + now apply scanAll1_count.
    + now apply scanAll2_count.
  - intros Hnew Hv.
    destruct (scanAll_count_new v Hv state Hnew) as [H1 H2]. split.
    + destruct barcodes as [|b bs]; [congruence|]. intros _. now apply H1.
    + destruct detections as [|d ds]; [congruence|]. intros _. now apply H2.
  - intros Hnew Hv. split.
    + destruct barcodes as [|b bs]; [congruence|]. intros _.
      inversion_clear Hbs as [|? ? Hb Hbs'].
      change (scanAll1 state (b :: bs))
        with (scanAll1 (Rev1.updateScanResults state b) bs).
      apply scanAll1_poisoned; [exact Hbs'|].
      rewrite (updateScanResults1_count _ _ v Hb). f_equal.
      apply countAfter_poisoned. now right.
    + destruct detections as [|d ds]; [congruence|]. intros _.
      inversion_clear Hds as [|? ? Hd Hds'].
      change (scanAll2 state (d :: ds))
        with (scanAll2 (Rev2.updateScanResults (fst d) state (snd d)) ds).
      apply scanAll2_poisoned; [exact Hds'|].
      rewrite (updateScanResults2_count _ _ _ v Hd). f_equal.
      apply countAfter_poisoned. now right.
Qed.

Lemma updateScanResults_repeated_witness :
  countAt (scanAll1 initialState
             (repeat (qrCode "constructor" (Some square)) 3)) "constructor"
    = Some (Some NaN)
  /\ countAt (scanAll2 initialState
                (map (fun t => (t, qrCode "constructor" (Some square)))
                     [0; 40; 80]))
       "constructor"
    = Some (Some NaN).
Proof.
  destruct (updateScanResults_repeated "constructor" initialState
              (repeat (qrCode "constructor" (Some square)) 3)
              (map (fun t => (t, qrCode "constructor" (Some square)))
                   [0; 40; 80]))
    as (_ & _ & _ & Hnan).
  - repeat constructor.
  - repeat constructor.
  - destruct (Hnan eq_refl eq_refl) as [H1 H2].
    split; [apply H1 | apply H2]; discriminate.
Defined.

(** ** Ranking *)

Lemma lastOf_cons {A} (x : A) l :
  lastOf (x :: l) = match l with [] => Some x | _ => lastOf l end.
Proof. unfold lastOf. simpl. now destruct l. Qed.

Lemma lastOf_In {A} (l : list A) x : lastOf l = Some x -> In x l.
Proof.
  induction l as [|y l IH]; [discriminate|].
  rewrite lastOf_cons. destruct l as [|z l].
  - intros H. left. congruence.
  - intros H. right. auto.
Qed.

Lemma atThreshold_count r : atThreshold r = true <-> count r = Some (Num 3).
Proof.
  unfold atThreshold, POSITIVE_SCAN_THRESHOLD.
  destruct (count r) as [[z|]|]; try (split; discriminate).
  rewrite Z.eqb_eq. split; congruence.
Qed.

Lemma atThreshold_meets r : atThreshold r = true -> meetsThreshold r = true.
Proof.
  unfold atThreshold, meetsThreshold.
  destruct (count r) as [[z|]|]; try discriminate.
  rewrite Z.eqb_eq. intros ->. reflexivity.
Qed.

Section SortFacts.
Context {A : Type} (item : A -> BarcodeScanResults).

Lemma insertSorted_cons x l :
  exists y l', insertSorted item x l = y :: l'.
Proof. destruct l; simpl; [|destruct (_ <=? _)]; eauto. Qed.

Lemma lastOf_insertSorted x l :
  lastOf (insertSorted item x l)
  = if forallb (behind item x) l then Some x else lastOf l.
Proof.
  induction l as [|y l IH]; [reflexivity|].
  simpl. unfold behind at 1.
  destruct (Z.leb_spec (compareFn (item x) (item y)) 0) as [Hle|Hgt].
  - replace (0 <? compareFn (item x) (item y)) with false
      by (symmetry; apply Z.ltb_ge; exact Hle).
    simpl. now rewrite lastOf_cons.
  - replace (0 <? compareFn (item x) (item y)) with true
      by (symmetry; apply Z.ltb_lt; exact Hgt).
    simpl. rewrite !lastOf_cons, IH.
    destruct (insertSorted_cons x l) as (y' & l' & ->).
    destruct l as [|z l]; [reflexivity|].
    now destruct (forallb (behind item x) (z :: l)).
Qed.

Lemma insertSorted_perm x l : Permutation (x :: l) (insertSorted item x l).
Proof.
  induction l as [|y l IH]; simpl; [reflexivity|].
  destruct (_ <=? _); [reflexivity|].
  rewrite perm_swap. now constructor.
Qed.

Lemma sort_perm l : Permutation l (sort item l).
Proof.
  induction l as [|x l IH]; simpl; [constructor|].
  rewrite <- insertSorted_perm. now constructor.
Qed.

Lemma filter_none (f : A -> bool) l :
  (forall y, In y l -> f y = false) -> filter f l = [].
Proof.
  induction l as [|y l IH]; [reflexivity|]. intros H. simpl.
  rewrite (H y (or_introl eq_refl)). apply IH. intros z Hz. apply H. now right.
Qed.

Lemma forallb_perm (f : A -> bool) l l' :
  Permutation l l' -> forallb f l = forallb f l'.
Proof.
  induction 1; simpl; try congruence.
  now rewrite !andb_assoc, (andb_comm (f y)).
Qed.

(** Among records that all meet the threshold, the last of the ranked
    array is at the threshold exactly when some record is, and it is then
    the last of those in the original order. *)
Lemma lastOf_sort_atThreshold l :
  forallb (fun x => meetsThreshold (item x)) l = true ->
  match lastOf (sort item l) with
  | Some e => if atThreshold (item e) then Some e else None
  | None => None
  end
  = lastOf (filter (fun x => atThreshold (item x)) l).
Proof.
  induction l as [|x l IH]; [reflexivity|].
  simpl. intros Hall. apply andb_true_iff in Hall. destruct Hall as [Hx Hl].
  specialize (IH Hl).
  rewrite lastOf_insertSorted, <- (forallb_perm _ _ _ (sort_perm l)).
  destruct (forallb (behind item x) l) eqn:Hbehind.
  - (* every other record has a larger count *)
    assert (Hnone : filter (fun y => atThreshold (item y)) l = []).
    { apply filter_none. intros y Hy.
      pose proof (proj1 (forallb_forall _ _) Hbehind y Hy) as Hb.
      unfold behind, compareFn in Hb.
      unfold meetsThreshold, POSITIVE_SCAN_THRESHOLD in Hx.
      unfold atThreshold, POSITIVE_SCAN_THRESHOLD.
      destruct (count (item y)) as [[cy|]|]; try reflexivity.
      destruct (count (item x)) as [[cx|]|]; try discriminate.
      apply Z.ltb_lt in Hb. apply Z.leb_le in Hx.
      apply Z.eqb_neq. lia. }
    rewrite Hnone. now destruct (atThreshold (item x)).
  - rewrite IH.
    destruct (atThreshold (item x)) eqn:Hat; [|reflexivity].
    rewrite lastOf_cons.
    destruct (filter (fun y => atThreshold (item y)) l) eqn:Hf; [|reflexivity].
    exfalso.
    (* some record is not above [x], which is at the threshold *)
    assert (Hex : exists y, In y l /\ behind item x y = false).
    { clear - Hbehind. induction l as [|y l IHl]; [discriminate|].
      simpl in Hbehind. destruct (behind item x y) eqn:E.
      - destruct (IHl Hbehind) as (z & Hz & Hbz). exists z. simpl. auto.
      - exists y. simpl. auto. }
    destruct Hex as (y & Hy & Hb).
    assert (Hy3 : atThreshold (item y) = true).
    { pose proof (proj1 (forallb_forall _ _) Hl y Hy) as Hm.
      simpl in Hm. apply atThreshold_count in Hat.
      unfold behind, compareFn in Hb. rewrite Hat in Hb.
      unfold meetsThreshold, POSITIVE_SCAN_THRESHOLD in Hm.
      unfold atThreshold, POSITIVE_SCAN_THRESHOLD.
      destruct (count (item y)) as [[cy|]|]; try discriminate.
      apply Z.ltb_ge in Hb. apply Z.leb_le in Hm. apply Z.eqb_eq. lia. }
    assert (Hin : In y (filter (fun y => atThreshold (item y)) l))
      by (apply filter_In; auto).
    rewrite Hf in Hin. exact Hin.
Qed.

Lemma filter_atThreshold_meets l :
  filter (fun x => atThreshold (item x))
         (filter (fun x => meetsThreshold (item x)) l)
  = filter (fun x => atThreshold (item x)) l.
Proof.
  induction l as [|x l IH]; [reflexivity|]. simpl.
  destruct (atThreshold (item x)) eqn:Hat.
  - rewrite (atThreshold_meets _ Hat). simpl. now rewrite Hat, IH.
  - destruct (meetsThreshold (item x)); simpl; [rewrite Hat|]; exact IH.
Qed.

Lemma lastOf_filterAndRank l :
  match lastOf (filterAndRank item l) with
  | Some e => if atThreshold (item e) then Some e else None
  | None => None
  end
  = lastOf (filter (fun x => atThreshold (item x)) l).
Proof.
  unfold filterAndRank. rewrite lastOf_sort_atThreshold.
  - now rewrite filter_atThreshold_meets.
  - apply forallb_forall. intros x Hx. now apply filter_In in Hx.
Qed.
End SortFacts.

(** The sort is the one [Array.prototype.sort] performs on the arrays that
    reach it: the result is a permutation ([sort_perm]), the counts descend,
    and records with equal counts keep their order. *)
Section SortIsStable.
Context {A : Type} (item : A -> BarcodeScanResults).

Lemma filter_insertSorted c x l :
  filter (hasCount item c) (insertSorted item x l)
  = if hasCount item c x then x :: filter (hasCount item c) l
    else filter (hasCount item c) l.
Proof.
  induction l as [|y l IH]; simpl; [reflexivity|].
  destruct (Z.leb_spec (compareFn (item x) (item y)) 0) as [Hle|Hgt];
    simpl; [reflexivity|].
  rewrite IH. destruct (hasCount item c x) eqn:Hx; [|reflexivity].
  replace (hasCount item c y) with false; [reflexivity|].
  unfold hasCount, compareFn in *.
  destruct (count (item y)) as [[cy|]|]; try reflexivity.
  destruct (count (item x)) as [[cx|]|]; try discriminate.
  apply Z.eqb_eq in Hx. symmetry. apply Z.eqb_neq. lia.
Qed.

Lemma sort_stable c l :
  filter (hasCount item c) (sort item l) = filter (hasCount item c) l.
Proof.
  induction l as [|x l IH]; simpl; [reflexivity|].
  rewrite filter_insertSorted, IH. reflexivity.
Qed.

Lemma insertSorted_descending x l :
  meetsThreshold (item x) = true ->
  Forall (fun y => meetsThreshold (item y) = true) l ->
  StronglySorted (descending item) l ->
  StronglySorted (descending item) (insertSorted item x l).
Proof.
  intros Hx Hall Hsorted. induction Hsorted as [|y l Hl IH Hy]; simpl.
  - repeat constructor.
  - inversion_clear Hall as [|? ? Hmy Hml].
    unfold meetsThreshold in Hx, Hmy.
    destruct (count (item x)) as [[cx|]|] eqn:Ecx; try discriminate.
    destruct (count (item y)) as [[cy|]|] eqn:Ecy; try discriminate.
    assert (Hcmp : compareFn (item x) (item y) = cy - cx)
      by (unfold compareFn; now rewrite Ecx, Ecy).
    rewrite Hcmp.
    destruct (Z.leb_spec (cy - cx) 0) as [Hle|Hgt].
    + constructor; [now constructor|].
      constructor.
      * exists cx, cy. repeat split; auto. lia.
      * eapply Forall_impl; [|exact Hy].
        intros z (cy' & cz & H1 & H2 & H3).
        exists cx, cz. rewrite Ecy in H1. injection H1 as <-.
        repeat split; auto. lia.
    + constructor; [auto|].
      assert (Hperm : Permutation (x :: l) (insertSorted item x l))
        by apply insertSorted_perm.
      eapply Permutation_Forall; [exact Hperm|].
      constructor; [|exact Hy].
      exists cy, cx. repeat split; auto. lia.
Qed.

Lemma filterAndRank_descending l :
  StronglySorted (descending item) (filterAndRank item l).
Proof.
  unfold filterAndRank.
  assert (Hall : Forall (fun y => meetsThreshold (item y) = true)
                   (filter (fun x => meetsThreshold (item x)) l)).
  { apply Forall_forall. intros y Hy. now apply filter_In in Hy. }
  induction (filter (fun x => meetsThreshold (item x)) l) as [|x m IH];
    simpl; [constructor|].
  inversion_clear Hall as [|? ? Hx Hm].
  apply insertSorted_descending; auto.
  eapply Permutation_Forall; [apply sort_perm | exact Hm].
Qed.
End SortIsStable.

(** ** The threshold gate *)

Lemma newBarcode1_spec barcodes :
  Rev1.newBarcode barcodes
  = lastOf (filter atThreshold (JsObject.values barcodes)).
Proof.
  unfold Rev1.newBarcode, barcodesFilteredArray.
  exact (lastOf_filterAndRank (fun r => r) (JsObject.values barcodes)).
Qed.

Lemma newBarcode2_spec selected (l : list (nat * BarcodeScanResults)) :
  snd (Rev2.newBarcode selected (filterAndRank snd l))
  = match lastOf (filter (fun x => atThreshold (snd x)) l) with
    | Some (ref, b) =>
        if Rev2.sameObject (Some ref) selected then None else Some b
    | None => None
    end.
Proof.
  rewrite <- (lastOf_filterAndRank snd l).
  unfold Rev2.newBarcode. cbn [snd].
  destruct (lastOf (filterAndRank snd l)) as [[ref b]|]; cbn [option_map fst snd].
  - destruct (atThreshold b); [reflexivity|].
    now destruct (Rev2.sameObject (Some ref) selected).
  - now destruct (Rev2.sameObject None selected).
Qed.






(** ** The overlay *)

Lemma barcodesFilteredArray_In barcodes r :
  In r (barcodesFilteredArray barcodes)
  <-> In r (JsObject.values barcodes) /\ meetsThreshold r = true.
Proof.
  unfold barcodesFilteredArray, filterAndRank.
  rewrite <- filter_In. split; intros H.
  - eapply Permutation_in; [symmetry; apply sort_perm | exact H].
  - eapply Permutation_in; [apply sort_perm | exact H].
Qed.

Lemma drawBox_stroke time r ops points :
  Rev2.drawBox time r = Some ops ->
  In (StrokePath points) ops
  <-> cornerPoints r = Some points
      /\ exists t, timestamp r = Some t /\ time - t <= 1000.
Proof.
  unfold Rev2.drawBox, Rev2.isStale.
  destruct (timestamp r) as [t|]; [|discriminate].
  intros H. injection H as <-.
  destruct (cornerPoints r) as [pts|].
  - destruct (Z.gtb_spec (time - t) 1000) as [Hgt|Hle]; simpl.
    + split; [intros [] |].
      intros [_ (t' & Ht & Hle)]. injection Ht as <-. lia.
    + split.
      * intros [H|[]]. injection H as ->. split; [reflexivity|].
        exists t. split; [reflexivity | lia].
      * intros [Hp _]. injection Hp as ->. now left.
  - split; [intros [] | intros [Hp _]; discriminate].
Qed.

Lemma drawBox_only_strokes time r ops e :
  Rev2.drawBox time r = Some ops -> In e ops -> exists p, e = StrokePath p.
Proof.
  unfold Rev2.drawBox. destruct (Rev2.isStale time r) as [stale|]; [|discriminate].
  intros H. injection H as <-.
  destruct (cornerPoints r) as [pts|]; [destruct stale|]; simpl;
    try tauto.
  intros [<-|[]]. eauto.
Qed.

Lemma drawEach_stroke clock arr : forall i ops points,
  Rev2.drawEach clock i arr = Some ops ->
  In (StrokePath points) ops
  <-> exists j r t,
        nth_error arr j = Some r
        /\ cornerPoints r = Some points
        /\ timestamp r = Some t
        /\ clock (i + j)%nat - t <= 1000.
Proof.
  induction arr as [|r arr IH]; intros i ops points; simpl.
  - intros H. injection H as <-. split; [intros []|].
    intros (j & r & t & Hj & _). now destruct j.
  - destruct (Rev2.drawBox (clock i) r) as [ops1|] eqn:H1; [|discriminate].
    destruct (Rev2.drawEach clock (S i) arr) as [ops2|] eqn:H2; [|discriminate].
    intros H. injection H as <-.
    rewrite in_app_iff, (drawBox_stroke _ _ _ points H1), (IH _ _ points H2).
    split.
    + intros [(Hp & t & Ht & Hle)|(j & r' & t & Hj & Hp & Ht & Hle)].
      * exists 0%nat, r, t. rewrite Nat.add_0_r. auto.
      * exists (S j), r', t. rewrite Nat.add_succ_r. auto.
    + intros (j & r' & t & Hj & Hp & Ht & Hle). destruct j as [|j].
      * simpl in Hj. injection Hj as <-. rewrite Nat.add_0_r in Hle.
        left. eauto.
      * right. exists j, r', t. rewrite Nat.add_succ_r in Hle. auto.
Qed.

Lemma drawEach_total clock arr : forall i,
  (forall r, In r arr -> timestamp r <> None) ->
  exists ops, Rev2.drawEach clock i arr = Some ops.
Proof.
  induction arr as [|r arr IH]; intros i Hall; simpl; [eauto|].
  unfold Rev2.drawBox, Rev2.isStale.
  destruct (timestamp r) as [t|] eqn:Ht.
  - destruct (IH (S i)) as [ops2 ->]; [intros; apply Hall; now right|]. eauto.
  - exfalso. apply (Hall r); [now left | exact Ht].
Qed.


(** ** Sessions *)

Lemma values_In {V} (o : JsObject.t V) v :
  In v (JsObject.values o) -> exists k, In (k, v) o.
Proof.
  unfold JsObject.values. intros H. apply in_map_iff in H.
  destruct H as ([k v'] & <- & H). eauto.
Qed.

Lemma recordOk_displayValue k r :
  recordOk k r -> atThreshold r = true ->
  inherited k = false /\ displayValue r = Some k.
Proof.
  unfold recordOk. intros Hok Hat. apply atThreshold_count in Hat.
  destruct (inherited k); [congruence|]. now destruct Hok.
Qed.

(** A record at the threshold taken from the store can be sent out. *)
Lemma searchRequest_ok barcodes b :
  storeOk barcodes ->
  In b (JsObject.values barcodes) ->
  atThreshold b = true ->
  exists c, searchRequest b = Some c /\ requestOk barcodes c.
Proof.
  intros Hs Hin Hat. apply values_In in Hin. destruct Hin as [k Hin].
  destruct (recordOk_displayValue k b (Hs k b Hin) Hat) as [Hk Hd].
  unfold searchRequest. rewrite Hd. eexists. split; [reflexivity|].
  destruct (In_own_get _ _ _ Hin) as [r' Hr'].
  exists k, r'. simpl. auto.
Qed.

Lemma storeOk_set barcodes k r :
  storeOk barcodes -> recordOk k r -> storeOk (JsObject.set barcodes k r).
Proof.
  intros Hs Hr k' r' Hin. apply In_set in Hin.
  destruct Hin as [[-> ->]|[_ Hin]]; auto.
Qed.

Lemma requestOk_set barcodes k r c :
  requestOk barcodes c -> requestOk (JsObject.set barcodes k r) c.
Proof.
  intros (k' & r' & Hd & Hk & Hm & Hr).
  exists k'. rewrite own_get_set.
  destruct (String.eqb k k'); eauto 6.
Qed.

Lemma recordOk_scanned1 state b :
  storeOk (scanResults state) ->
  recordOk (Barcode.displayValue b)
    (let cur := get (scanResults state) (Barcode.displayValue b) in
     if truthy cur
     then set_count (plus1 (count (fields cur))) (fields cur)
     else set_searchStatus scanned (set_count (Num 1) (ofBarcode b))).
Proof.
  intros Hs. unfold get, recordOk.
  destruct (JsObject.own_get (scanResults state) (Barcode.displayValue b))
    as [r|] eqn:Hr; simpl.
  - pose proof (Hs _ _ (own_get_In _ _ _ Hr)) as Hok. unfold recordOk in Hok.
    destruct (inherited (Barcode.displayValue b)); [now rewrite Hok | exact Hok].
  - destruct (inherited (Barcode.displayValue b)); simpl; auto.
Qed.

Lemma recordOk_scanned2 t state b :
  storeOk (scanResults state) ->
  recordOk (Barcode.displayValue b)
    (let cur := get (scanResults state) (Barcode.displayValue b) in
     if truthy cur
     then set_timestamp t
            (set_count (plus1 (count (fields cur)))
               (assign (fields cur) b))
     else set_timestamp t
            (set_searchStatus scanned (set_count (Num 1) (ofBarcode b)))).
Proof.
  intros Hs. unfold get, recordOk.
  destruct (JsObject.own_get (scanResults state) (Barcode.displayValue b))
    as [r|] eqn:Hr; simpl.
  - pose proof (Hs _ _ (own_get_In _ _ _ Hr)) as Hok. unfold recordOk in Hok.
    destruct (inherited (Barcode.displayValue b)); [now rewrite Hok|].
    split; [reflexivity | apply Hok].
  - destruct (inherited (Barcode.displayValue b)); simpl; auto.
Qed.

Lemma sessionOk_scanned1 state pending b :
  sessionOk state pending ->
  sessionOk (Rev1.updateScanResults state b) pending.
Proof.
  intros [Hs Hp]. split.
  - apply storeOk_set; [exact Hs | now apply recordOk_scanned1].
  - intros c Hc. apply requestOk_set. auto.
Qed.

Lemma sessionOk_scanned2 t state pending b :
  sessionOk state pending ->
  sessionOk (Rev2.updateScanResults t state b) pending.
Proof.
  intros [Hs Hp]. split.
  - apply storeOk_set; [exact Hs | now apply recordOk_scanned2].
  - intros c Hc. apply requestOk_set. auto.
Qed.

Lemma removeAt_In {A} (l : list A) : forall i x,
  In x (removeAt i l) -> In x l.
Proof.
  unfold removeAt.
  induction l as [|y l IH]; intros [|i] x; simpl; auto.
  intros [H|H]; [auto | right; eauto].
Qed.

Lemma sessionOk_completed state pending c :
  sessionOk state pending ->
  requestOk (scanResults state) c ->
  sessionOk (snd (searchCompleted state c)) pending.
Proof.
  intros [Hs Hp] (k & r & Hd & Hk & Hm & Hr).
  unfold searchCompleted, updateBarcodeSearchStatus. cbn [snd scanResults].
  rewrite Hd. cbn [toPropertyKey]. split.
  - apply storeOk_set; [exact Hs|].
    rewrite (get_own _ _ _ Hr). cbn [fields].
    pose proof (Hs _ _ (own_get_In _ _ _ Hr)) as Hok.
    unfold recordOk in *. rewrite Hk in *. split; [apply Hok|].
    right. simpl. unfold verdict. rewrite Hm. reflexivity.
  - intros c' Hc'. apply requestOk_set. auto.
Qed.

Lemma sessionOk_weaken state pending pending' :
  sessionOk state pending ->
  (forall c, In c pending' -> In c pending) ->
  sessionOk state pending'.
Proof. intros [Hs Hp] Hsub. split; auto. Qed.

Lemma sessionOk_request state pending c :
  sessionOk state pending ->
  requestOk (scanResults state) c ->
  sessionOk state (pending ++ [c]).
Proof.
  intros [Hs Hp] Hc. split; [exact Hs|].
  intros c' Hin. apply in_app_or in Hin.
  destruct Hin as [Hin|[<-|[]]]; auto.
Qed.

(** *** The store and the requests after one event *)

Lemma notify1_ok s state' pending' done :
  sessionOk state' pending' ->
  exists s',
    Rev1.notify s state' pending' done = Some s'
    /\ Rev1.state s' = state'
    /\ sessionOk state' (Rev1.pending s').
Proof.
  intros Hok. unfold Rev1.notify.
  destruct (Rev1.newBarcode (scanResults state')) as [b|] eqn:Hnew.
  - rewrite newBarcode1_spec in Hnew. apply lastOf_In, filter_In in Hnew.
    destruct Hnew as [Hin Hat].
    destruct (searchRequest_ok _ b (proj1 Hok) Hin Hat) as (c & -> & Hc).
    eexists. split; [reflexivity|]. split; [reflexivity|].
    now apply sessionOk_request.
  - eexists. split; [reflexivity|]. split; [reflexivity | exact Hok].
Qed.

Lemma step1_ok s e :
  sessionOk (Rev1.state s) (Rev1.pending s) ->
  exists s',
    Rev1.step s e = Some s'
    /\ sessionOk (Rev1.state s') (Rev1.pending s')
    /\ Rev1.state s' =
       match e with
       | barcodeScanned _ b => Rev1.updateScanResults (Rev1.state s) b
       | searchReturned _ i => completedAt (Rev1.state s) (Rev1.pending s) i
       end.
Proof.
  intros Hok. destruct e as [env b|env i]; unfold Rev1.step, completedAt.
  - destruct (notify1_ok s (Rev1.updateScanResults (Rev1.state s) b)
                (Rev1.pending s) []) as (s' & Hs' & Hst & Hok').
    { now apply sessionOk_scanned1. }
    exists s'. rewrite Hst. auto.
  - destruct (nth_error (Rev1.pending s) i) as [c|] eqn:Hc.
    + destruct (searchCompleted (Rev1.state s) c) as [done state'] eqn:Hdone.
      assert (Hstate : state' = snd (searchCompleted (Rev1.state s) c))
        by now rewrite Hdone.
      destruct (notify1_ok s state' (removeAt i (Rev1.pending s)) done)
        as (s' & Hs' & Hst & Hok').
      { rewrite Hstate.
        apply sessionOk_weaken with (pending := Rev1.pending s).
        - apply sessionOk_completed; [exact Hok|].
          apply (proj2 Hok). eapply nth_error_In; eauto.
        - intros c'. apply removeAt_In. }
      exists s'. rewrite Hst. cbn [snd]. auto.
    + exists s. auto.
Qed.

Lemma timed_set barcodes k r :
  timed barcodes ->
  (meetsThreshold r = true -> timestamp r <> None) ->
  timed (JsObject.set barcodes k r).
Proof.
  intros Ht Hr k' r' Hin. apply In_set in Hin.
  destruct Hin as [[_ ->]|[_ Hin]]; [exact Hr | now apply (Ht k')].
Qed.

Lemma timed_scanned2 t state b :
  timed (scanResults state) ->
  timed (scanResults (Rev2.updateScanResults t state b)).
Proof.
  intros Ht. apply timed_set; [exact Ht|].
  intros _. now destruct (truthy _).
Qed.

Lemma timed_status state v st :
  timed (scanResults state) ->
  timed (scanResults (updateBarcodeSearchStatus state v st)).
Proof.
  intros Ht. apply timed_set; [exact Ht|].
  unfold get.
  destruct (JsObject.own_get (scanResults state) v) as [r|] eqn:Hr.
  - exact (Ht _ _ (own_get_In _ _ _ Hr)).
  - now destruct (inherited v).
Qed.

Lemma drawBoxes_total env barcodes :
  timed barcodes ->
  exists ops, Rev2.drawBoxes env (barcodesFilteredArray barcodes) = Some ops.
Proof.
  intros Ht. unfold Rev2.drawBoxes.
  destruct (canvasReady env); [|eauto].
  destruct (drawEach_total (clock env) (barcodesFilteredArray barcodes) 0)
    as [ops ->]; [|simpl; eauto].
  intros r Hr. apply barcodesFilteredArray_In in Hr. destruct Hr as [Hin Hm].
  apply values_In in Hin. destruct Hin as [k Hin]. now apply (Ht k).
Qed.

Lemma newBarcode2_In selected identity barcodes sel b :
  Rev2.newBarcode selected
    (filterAndRank snd (Rev2.tagged identity barcodes)) = (sel, Some b) ->
  In b (JsObject.values barcodes) /\ atThreshold b = true.
Proof.
  intros H.
  pose proof (newBarcode2_spec selected (Rev2.tagged identity barcodes)) as Hs.
  rewrite H in Hs. cbn [snd] in Hs.
  destruct (lastOf _) as [[ref b']|] eqn:Hl in Hs; [|discriminate].
  destruct (Rev2.sameObject _ _); [discriminate|]. injection Hs as ->.
  apply lastOf_In, filter_In in Hl. destruct Hl as [Hin Hat].
  split; [|exact Hat]. unfold Rev2.tagged in Hin.
  now apply in_combine_r in Hin.
Qed.

Lemma notify2_ok env s k state' pending' done :
  sessionOk state' pending' ->
  timed (scanResults state') ->
  exists s',
    Rev2.notify env s k state' pending' done = Some s'
    /\ Rev2.state s' = state'
    /\ sessionOk state' (Rev2.pending s').
Proof.
  intros Hok Ht. unfold Rev2.notify.
  destruct (drawBoxes_total env _ Ht) as [drawn ->].
  destruct (Rev2.newBarcode _ _) as [sel [b|]] eqn:Hnew.
  - apply newBarcode2_In in Hnew. destruct Hnew as [Hin Hat].
    destruct (searchRequest_ok _ b (proj1 Hok) Hin Hat) as (c & -> & Hc).
    eexists. split; [reflexivity|]. split; [reflexivity|].
    now apply sessionOk_request.
  - eexists. split; [reflexivity|]. split; [reflexivity | exact Hok].
Qed.

Lemma step2_ok s e :
  sessionOk (Rev2.state s) (Rev2.pending s) ->
  timed (scanResults (Rev2.state s)) ->
  exists s',
    Rev2.step s e = Some s'
    /\ sessionOk (Rev2.state s') (Rev2.pending s')
    /\ timed (scanResults (Rev2.state s'))
    /\ Rev2.state s' =
       match e with
       | barcodeScanned env b =>
           Rev2.updateScanResults (now env) (Rev2.state s) b
       | searchReturned _ i => completedAt (Rev2.state s) (Rev2.pending s) i
       end.
Proof.
  intros Hok Ht. destruct e as [env b|env i]; unfold Rev2.step, completedAt.
  - destruct (notify2_ok env s (Barcode.displayValue b)
                (Rev2.updateScanResults (now env) (Rev2.state s) b)
                (Rev2.pending s) []) as (s' & Hs' & Hst & Hok').
    { now apply sessionOk_scanned2. }
    { now apply timed_scanned2. }
    exists s'. rewrite Hst.
    split; [exact Hs'|]. split; [exact Hok'|].
    split; [now apply timed_scanned2 | reflexivity].
  - destruct (nth_error (Rev2.pending s) i) as [c|] eqn:Hc.
    + destruct (searchCompleted (Rev2.state s) c) as [done state'] eqn:Hdone.
      assert (Hstate : state' = snd (searchCompleted (Rev2.state s) c))
        by now rewrite Hdone.
      assert (Ht' : timed (scanResults state')).
      { rewrite Hstate. unfold searchCompleted. cbn [snd].
        now apply timed_status. }
      destruct (notify2_ok env s (toPropertyKey (displayValue (barcode c)))
                  state' (removeAt i (Rev2.pending s)) done)
        as (s' & Hs' & Hst & Hok'); [|exact Ht'|].
      { rewrite Hstate.
        apply sessionOk_weaken with (pending := Rev2.pending s).
        - apply sessionOk_completed; [exact Hok|].
          apply (proj2 Hok). eapply nth_error_In; eauto.
        - intros c'. apply removeAt_In. }
      exists s'. rewrite Hst. cbn [snd]. auto.
    + exists s. auto.
Qed.

(** *** What an event does to the status of a value *)

Lemma status_kept_scanned1 state b k r :
  JsObject.own_get (scanResults state) k = Some r ->
  exists r',
    JsObject.own_get (scanResults (Rev1.updateScanResults state b)) k = Some r'
    /\ searchStatus r' = searchStatus r.
Proof.
  intros Hr. rewrite updateScanResults1_lookup.
  destruct (String.eqb_spec (Barcode.displayValue b) k) as [->|]; [|eauto].
  rewrite (get_own _ _ _ Hr). simpl. eauto.
Qed.

Lemma status_kept_scanned2 t state b k r :
  JsObject.own_get (scanResults state) k = Some r ->
  exists r',
    JsObject.own_get (scanResults (Rev2.updateScanResults t state b)) k
      = Some r'
    /\ searchStatus r' = searchStatus r.
Proof.
  intros Hr. rewrite updateScanResults2_lookup.
  destruct (String.eqb_spec (Barcode.displayValue b) k) as [->|]; [|eauto].
  rewrite (get_own _ _ _ Hr). simpl. eauto.
Qed.

Lemma status_kept_completed state pending i k r :
  sessionOk state pending ->
  JsObject.own_get (scanResults state) k = Some r ->
  searchStatus r = Some (verdict k) ->
  exists r',
    JsObject.own_get (scanResults (completedAt state pending i)) k = Some r'
    /\ searchStatus r' = Some (verdict k).
Proof.
  intros Hok Hr Hst. unfold completedAt.
  destruct (nth_error pending i) as [c|] eqn:Hc; [|eauto].
  destruct (proj2 Hok c (nth_error_In _ _ Hc)) as (k' & r' & Hd & Hk & Hm & Hr').
  unfold searchCompleted. cbn [snd]. rewrite Hd. cbn [toPropertyKey].
  rewrite updateBarcodeSearchStatus_lookup.
  destruct (String.eqb_spec k' k) as [->|]; [|eauto].
  eexists. split; [reflexivity|]. simpl. unfold verdict. now rewrite Hm.
Qed.

(** *** What the completion of a verification adds to the log *)

Lemma drawEach_no_stop clock arr : forall i ops,
  Rev2.drawEach clock i arr = Some ops -> ~ In StopScan ops.
Proof.
  induction arr as [|r arr IH]; intros i ops; simpl.
  - intros H. injection H as <-. intros [].
  - destruct (Rev2.drawBox (clock i) r) as [ops1|] eqn:H1; [|discriminate].
    destruct (Rev2.drawEach clock (S i) arr) as [ops2|] eqn:H2; [|discriminate].
    intros H. injection H as <-. intros Hin. apply in_app_or in Hin.
    destruct Hin as [Hin|Hin].
    + destruct (drawBox_only_strokes _ _ _ _ H1 Hin). discriminate.
    + exact (IH _ _ H2 Hin).
Qed.

Lemma drawBoxes_no_stop env arr ops :
  Rev2.drawBoxes env arr = Some ops -> ~ In StopScan ops.
Proof.
  unfold Rev2.drawBoxes. destruct (canvasReady env).
  - destruct (Rev2.drawEach (clock env) 0 arr) as [ops'|] eqn:H; [|discriminate].
    intros H'. injection H' as <-. intros [Hin|Hin]; [discriminate|].
    exact (drawEach_no_stop _ _ _ _ H Hin).
  - intros H. injection H as <-. intros [].
Qed.

Lemma notify1_log s state' pending' done s' :
  Rev1.notify s state' pending' done = Some s' ->
  Rev1.state s' = state'
  /\ exists rest,
       Rev1.log s' = Rev1.log s ++ done ++ rest /\ ~ In StopScan rest.
Proof.
  unfold Rev1.notify.
  destruct (Rev1.newBarcode (scanResults state')) as [b|].
  - destruct (searchRequest b) as [c|]; [|discriminate].
    intros H. injection H as <-. split; [reflexivity|]. cbn [Rev1.log].
    eexists. split; [reflexivity|].
    intros Hin. destruct Hin as [Hin|Hin]; [discriminate|].
    destruct (Nat.eqb _ _); [destruct Hin | destruct Hin as [?|[]]; discriminate].
  - intros H. injection H as <-. split; [reflexivity|]. cbn [Rev1.log].
    eexists. split; [reflexivity|].
    destruct (Nat.eqb _ _); [intros [] | intros [?|[]]; discriminate].
Qed.

Lemma notify2_log env s k state' pending' done s' :
  Rev2.notify env s k state' pending' done = Some s' ->
  Rev2.state s' = state'
  /\ exists rest,
       Rev2.log s' = Rev2.log s ++ done ++ rest /\ ~ In StopScan rest.
Proof.
  unfold Rev2.notify.
  destruct (Rev2.drawBoxes _ _) as [drawn|] eqn:Hdraw; [|discriminate].
  apply drawBoxes_no_stop in Hdraw.
  destruct (Rev2.newBarcode _ _) as [sel [b|]].
  - destruct (searchRequest b) as [c|]; [|discriminate].
    intros H. injection H as <-. split; [reflexivity|]. cbn [Rev2.log].
    eexists. split; [reflexivity|].
    intros Hin. apply in_app_or in Hin.
    destruct Hin as [Hin|[Hin|[Hin|[]]]]; [auto | discriminate..].
  - intros H. injection H as <-. split; [reflexivity|]. cbn [Rev2.log].
    eexists. split; [reflexivity | exact Hdraw].
Qed.

(** C9: when a verification completes with [matched = true] the scan is
    stopped ([KEEP_SCANNING_AFTER_MATCH] is [false]); when it completes with
    [matched = false] the record of the value gets the status [Rejected] and
    the scan is not stopped.  In a session of either revision the completion
    of a verification logs these effects, leaves the store as the handler
    made it, and nothing that follows in the same task stops the scan. *)
Theorem searchCompleted_stop_policy :
  (forall state c,
     (isMatched c = true -> In StopScan (fst (searchCompleted state c)))
     /\ (isMatched c = false ->
         ~ In StopScan (fst (searchCompleted state c))
         /\ exists r,
             JsObject.own_get (scanResults (snd (searchCompleted state c)))
               (toPropertyKey (displayValue (barcode c))) = Some r
             /\ searchStatus r = Some rejected))
  /\ (forall s env i c s',
       nth_error (Rev1.pending s) i = Some c ->
       Rev1.step s (searchReturned env i) = Some s' ->
       Rev1.state s' = snd (searchCompleted (Rev1.state s) c)
       /\ exists rest,
            Rev1.log s'
              = Rev1.log s ++ fst (searchCompleted (Rev1.state s) c) ++ rest
            /\ ~ In StopScan rest)
  /\ (forall s env i c s',
       nth_error (Rev2.pending s) i = Some c ->
       Rev2.step s (searchReturned env i) = Some s' ->
       Rev2.state s' = snd (searchCompleted (Rev2.state s) c)
       /\ exists rest,
            Rev2.log s'
              = Rev2.log s ++ fst (searchCompleted (Rev2.state s) c) ++ rest
            /\ ~ In StopScan rest).
Proof.
  split; [|split].
  - intros state c. unfold searchCompleted.
    split; intros Hm; rewrite Hm; cbn [fst snd].
    + now left.
    + split.
      * intros [H|[]]. discriminate.
      * rewrite updateBarcodeSearchStatus_lookup, String.eqb_refl.
        eexists. split; reflexivity.
  - intros s env i c s' Hc. unfold Rev1.step. rewrite Hc.
    destruct (searchCompleted (Rev1.state s) c) as [done state'].
    apply notify1_log.
  - intros s env i c s' Hc. unfold Rev2.step. rewrite Hc.
    destruct (searchCompleted (Rev2.state s) c) as [done state'].
    apply notify2_log.
Qed.

Lemma searchCompleted_stop_policy_witness :
  let seen v :=
    set_searchStatus scanned (set_count (Num 3) (ofBarcode (qrCode v None))) in
  let state v := {| scanResults := [(v, seen v)] |} in
  In StopScan
    (fst (searchCompleted (state "S123")
            {| barcode := seen "S123"; isMatched := true |}))
  /\ ~ In StopScan
       (fst (searchCompleted (state "X999")
               {| barcode := seen "X999"; isMatched := false |})).
Proof.
  intros seen state. split.
  - exact (proj1 (proj1 searchCompleted_stop_policy (state "S123")
                    {| barcode := seen "S123"; isMatched := true |}) eq_refl).
  - exact (proj1 (proj2 (proj1 searchCompleted_stop_policy (state "X999")
                    {| barcode := seen "X999"; isMatched := false |}) eq_refl)).
Defined.

(** *** Runs *)

Section RunInvariant.
Context {St : Type} (step : St -> Event -> option St)
        (store : St -> BarcodeScannerState) (Inv : St -> Prop).

Hypothesis step_ok :
  forall s e, Inv s -> exists s', step s e = Some s' /\ Inv s'.

Hypothesis step_status :
  forall s e s' k r,
    Inv s -> step s e = Some s' ->
    JsObject.own_get (scanResults (store s)) k = Some r ->
    searchStatus r = Some (verdict k) ->
    exists r',
      JsObject.own_get (scanResults (store s')) k = Some r'
      /\ searchStatus r' = Some (verdict k).

Hypothesis inv_store : forall s, Inv s -> storeOk (scanResults (store s)).

Lemma run_ok events : forall s,
  Inv s -> exists s', run step s events = Some s' /\ Inv s'.
Proof.
  induction events as [|e events IH]; intros s Hs; simpl; [eauto|].
  destruct (step_ok s e Hs) as (s1 & -> & Hs1). auto.
Qed.

Lemma run_status events : forall s k r,
  Inv s ->
  JsObject.own_get (scanResults (store s)) k = Some r ->
  searchStatus r = Some (verdict k) ->
  exists s' r',
    run step s events = Some s'
    /\ JsObject.own_get (scanResults (store s')) k = Some r'
    /\ searchStatus r' = Some (verdict k).
Proof.
  induction events as [|e events IH]; intros s k r Hs Hr Hst; simpl.
  - eauto.
  - destruct (step_ok s e Hs) as (s1 & Hstep & Hs1).
    destruct (step_status s e s1 k r Hs Hstep Hr Hst) as (r1 & Hr1 & Hst1).
    rewrite Hstep. eauto.
Qed.

Lemma run_lifecycle start : Inv start -> statusLifecycle step start store.
Proof.
  intros Hstart events.
  destruct (run_ok events start Hstart) as (s & Hrun & Hs).
  exists s. split; [exact Hrun|]. intros k r Hk Hr.
  pose proof (inv_store s Hs k r (own_get_In _ _ _ Hr)) as Hok.
  unfold recordOk in Hok. rewrite Hk in Hok. destruct Hok as [_ Hst].
  split; [exact Hst|]. intros Hns events'.
  destruct Hst as [Hst|Hst]; [contradiction|].
  destruct (run_status events' s k r Hs Hr Hst) as (s' & r' & H1 & H2 & H3).
  exists s', r'. rewrite Hst. auto.
Qed.
End RunInvariant.

Lemma lifecycle1 : statusLifecycle Rev1.step Rev1.start Rev1.state.
Proof.
  apply run_lifecycle
    with (Inv := fun s => sessionOk (Rev1.state s) (Rev1.pending s)).
  - intros s e Hs. destruct (step1_ok s e Hs) as (s' & H1 & H2 & _). eauto.
  - intros s e s' k r Hs Hstep Hr Hst.
    destruct (step1_ok s e Hs) as (s1 & H1 & _ & H3).
    rewrite Hstep in H1. injection H1 as <-. rewrite H3.
    destruct e as [env b|env i].
    + destruct (status_kept_scanned1 (Rev1.state s) b k r Hr) as (r' & ? & ?).
      exists r'. split; congruence.
    + now apply status_kept_completed with (r := r).
  - intros s Hs. apply Hs.
  - split; [intros k r [] | intros c []].
Qed.

Lemma lifecycle2 : statusLifecycle Rev2.step Rev2.start Rev2.state.
Proof.
  apply run_lifecycle
    with (Inv := fun s => sessionOk (Rev2.state s) (Rev2.pending s)
                          /\ timed (scanResults (Rev2.state s))).
  - intros s e [Hs Ht].
    destruct (step2_ok s e Hs Ht) as (s' & H1 & H2 & H3 & _). eauto.
  - intros s e s' k r [Hs Ht] Hstep Hr Hst.
    destruct (step2_ok s e Hs Ht) as (s1 & H1 & _ & _ & H3).
    rewrite Hstep in H1. injection H1 as <-. rewrite H3.
    destruct e as [env b|env i].
    + destruct (status_kept_scanned2 (now env) (Rev2.state s) b k r Hr)
        as (r' & ? & ?).
      exists r'. split; congruence.
    + now apply status_kept_completed with (r := r).
  - intros s [Hs _]. apply Hs.
  - split; [split; [intros k r [] | intros c []] | intros k r []].
Qed.

(** C6 (as stated) fails for the operation itself: once the verification of
    "S123" has set the status [Matched], applying
    [updateBarcodeSearchStatus] with [Rejected] replaces it. *)
Lemma terminal_status_overwritten :
  exists s r r',
    run Rev2.step Rev2.start (threeScans "S123" ++ [searchReturned (atTime 3000) 0])
      = Some s
    /\ JsObject.own_get (scanResults (Rev2.state s)) "S123" = Some r
    /\ searchStatus r = Some matched
    /\ JsObject.own_get
         (scanResults (updateBarcodeSearchStatus (Rev2.state s) "S123" rejected))
         "S123" = Some r'
    /\ searchStatus r' = Some rejected.
Proof.
  do 3 eexists. split; [vm_compute; reflexivity|].
  split; [vm_compute; reflexivity|].
  split; [reflexivity|].
  split; [vm_compute; reflexivity | reflexivity].
Qed.

(** C6 (amended): [updateBarcodeSearchStatus] writes whatever status it is
    given.  In the sessions of both revisions it is only given the verdict
    on the value, so for every value that is not the name of a property of
    [Object.prototype]: the record is created with status [Scanned]; its
    status is [Scanned] or the verdict ([Matched] if [isMatch], else
    [Rejected]); and once it is [Matched] or [Rejected] it stays so under
    every later detection and verification. *)
Theorem status_lifecycle :
  (forall state b t,
     get (scanResults state) (Barcode.displayValue b) = Undefined ->
     exists r1 r2,
       JsObject.own_get (scanResults (Rev1.updateScanResults state b))
         (Barcode.displayValue b) = Some r1
       /\ searchStatus r1 = Some scanned
       /\ JsObject.own_get (scanResults (Rev2.updateScanResults t state b))
            (Barcode.displayValue b) = Some r2
       /\ searchStatus r2 = Some scanned)
  /\ statusLifecycle Rev1.step Rev1.start Rev1.state
  /\ statusLifecycle Rev2.step Rev2.start Rev2.state.
Proof.
  split; [|split; [exact lifecycle1 | exact lifecycle2]].
  intros state b t Hget. do 2 eexists.
  rewrite updateScanResults1_lookup, updateScanResults2_lookup.
  rewrite String.eqb_refl, Hget. cbn [truthy].
  repeat split.
Qed.

Lemma status_lifecycle_witness :
  exists s r,
    run Rev2.step Rev2.start (threeScans "S123" ++ [searchReturned (atTime 3000) 0])
      = Some s
    /\ JsObject.own_get (scanResults (Rev2.state s)) "S123" = Some r
    /\ searchStatus r = Some matched
    /\ exists s' r',
         run Rev2.step s
           [barcodeScanned (atTime 3040) (qrCode "S123" None);
            searchReturned (atTime 6000) 0] = Some s'
         /\ JsObject.own_get (scanResults (Rev2.state s')) "S123" = Some r'
         /\ searchStatus r' = searchStatus r.
Proof.
  destruct (proj2 (proj2 status_lifecycle)
              (threeScans "S123" ++ [searchReturned (atTime 3000) 0]))
    as (s & Hrun & H).
  pose (r := set_searchStatus matched
               (set_timestamp 80 (set_count (Num 3)
                  (assign emptyObject (qrCode "S123" None))))).
  assert (Hr : JsObject.own_get (scanResults (Rev2.state s)) "S123" = Some r).
  { vm_compute in Hrun. injection Hrun as <-. reflexivity. }
  exists s, r. split; [exact Hrun|]. split; [exact Hr|].
  split; [reflexivity|].
  destruct (H "S123" r eq_refl Hr) as [_ Hkeep].
  apply Hkeep. discriminate.
Defined.

(** *** The requests in flight are for values of the store *)

Lemma requestOk_known barcodes c :
  requestOk barcodes c ->
  exists r,
    JsObject.own_get barcodes (toPropertyKey (displayValue (barcode c)))
    = Some r.
Proof. intros (k & r & -> & _ & _ & Hr). simpl. eauto. Qed.

Lemma run1_requests_known events :
  exists s,
    run Rev1.step Rev1.start events = Some s
    /\ forall c, In c (Rev1.pending s) ->
         exists r,
           JsObject.own_get (scanResults (Rev1.state s))
             (toPropertyKey (displayValue (barcode c))) = Some r.
Proof.
  destruct (run_ok Rev1.step
              (fun s => sessionOk (Rev1.state s) (Rev1.pending s)))
    with (events := events) (s := Rev1.start) as (s & Hrun & Hok).
  - intros s e Hs. destruct (step1_ok s e Hs) as (s' & H1 & H2 & _). eauto.
  - split; [intros k r [] | intros c []].
  - exists s. split; [exact Hrun|]. intros c Hc.
    apply requestOk_known. now apply Hok.
Qed.

Lemma run2_requests_known events :
  exists s,
    run Rev2.step Rev2.start events = Some s
    /\ forall c, In c (Rev2.pending s) ->
         exists r,
           JsObject.own_get (scanResults (Rev2.state s))
             (toPropertyKey (displayValue (barcode c))) = Some r.
Proof.
  destruct (run_ok Rev2.step
              (fun s => sessionOk (Rev2.state s) (Rev2.pending s)
                        /\ timed (scanResults (Rev2.state s))))
    with (events := events) (s := Rev2.start) as (s & Hrun & Hok & _).
  - intros s e [Hs Ht].
    destruct (step2_ok s e Hs Ht) as (s' & H1 & H2 & H3 & _). eauto.
  - split; [split; [intros k r [] | intros c []] | intros k r []].
  - exists s. split; [exact Hrun|]. intros c Hc.
    apply requestOk_known. now apply Hok.
Qed.

(** *** The identities of the second revision follow the store *)

Lemma run2_aligned_from events : forall s s',
  JsObject.keys (Rev2.identity s) = JsObject.keys (scanResults (Rev2.state s)) ->
  run Rev2.step s events = Some s' ->
  JsObject.keys (Rev2.identity s')
  = JsObject.keys (scanResults (Rev2.state s')).
Proof.
  induction events as [|e events IH]; intros s s' Hs; simpl.
  - intros H. now injection H as <-.
  - destruct (Rev2.step s e) as [s1|] eqn:Hstep; [|discriminate].
    apply IH. clear IH.
    assert (Hnotify : forall env k state' pending' done,
               Rev2.notify env s k state' pending' done = Some s1 ->
               Rev2.identity s1 = JsObject.set (Rev2.identity s) k (Rev2.allocated s)
               /\ Rev2.state s1 = state').
    { intros env k state' pending' done. unfold Rev2.notify.
      destruct (Rev2.drawBoxes _ _); [|discriminate].
      destruct (Rev2.newBarcode _ _) as [sel [b|]].
      - destruct (searchRequest b); [|discriminate].
        intros H. injection H as <-. auto.
      - intros H. injection H as <-. auto. }
    destruct e as [env b|env i]; unfold Rev2.step in Hstep.
    + destruct (Hnotify _ _ _ _ _ Hstep) as [-> ->].
      unfold Rev2.updateScanResults. cbn [scanResults]. now apply keys_set.
    + destruct (nth_error (Rev2.pending s) i) as [c|].
      * destruct (searchCompleted (Rev2.state s) c) as [done state'] eqn:Hc.
        destruct (Hnotify _ _ _ _ _ Hstep) as [-> ->].
        unfold searchCompleted in Hc. injection Hc as _ <-.
        unfold updateBarcodeSearchStatus. cbn [scanResults]. now apply keys_set.
      * injection Hstep as <-. exact Hs.
Qed.

Lemma run2_aligned events s :
  run Rev2.step Rev2.start events = Some s ->
  JsObject.keys (Rev2.identity s) = JsObject.keys (scanResults (Rev2.state s)).
Proof. now apply run2_aligned_from. Qed.

(** ** Verification of unknown values *)

(** C5 (as stated) fails: for a value that is not in the map the updater is
    not a no-op; it adds a record that has no [count]. *)
Lemma updateBarcodeSearchStatus_unknown_inserts :
  JsObject.own_get (scanResults initialState) "X999" = None
  /\ scanResults (updateBarcodeSearchStatus initialState "X999" rejected)
     <> scanResults initialState
  /\ exists r,
      JsObject.own_get
        (scanResults (updateBarcodeSearchStatus initialState "X999" rejected))
        "X999" = Some r
      /\ count r = None.
Proof.
  split; [reflexivity|]. split; [discriminate|].
  eexists. split; reflexivity.
Qed.

(** C5 (amended): for a value that is not an own key of the map,
    [updateBarcodeSearchStatus] does not fail: it adds a record for the
    value that carries the given status and nothing else ([count],
    [cornerPoints] and [timestamp] are undefined), and it leaves the record
    of every other value as it was.  In the sessions of both revisions every
    verification in flight is for a value that is in the map, so the updater
    is never applied to an unknown value there. *)
Theorem updateBarcodeSearchStatus_unknown :
  (forall state v st,
     JsObject.own_get (scanResults state) v = None ->
     JsObject.own_get (scanResults (updateBarcodeSearchStatus state v st)) v
       = Some (set_searchStatus st emptyObject)
     /\ forall k, k <> v ->
          JsObject.own_get
            (scanResults (updateBarcodeSearchStatus state v st)) k
          = JsObject.own_get (scanResults state) k)
  /\ (forall events,
       exists s,
         run Rev1.step Rev1.start events = Some s
         /\ forall c, In c (Rev1.pending s) ->
              exists r,
                JsObject.own_get (scanResults (Rev1.state s))
                  (toPropertyKey (displayValue (barcode c))) = Some r)
  /\ (forall events,
       exists s,
         run Rev2.step Rev2.start events = Some s
         /\ forall c, In c (Rev2.pending s) ->
              exists r,
                JsObject.own_get (scanResults (Rev2.state s))
                  (toPropertyKey (displayValue (barcode c))) = Some r).
Proof.
  split; [|split; [exact run1_requests_known | exact run2_requests_known]].
  intros state v st Hv. split.
  - rewrite updateBarcodeSearchStatus_lookup, String.eqb_refl.
    now rewrite (fields_get_absent _ _ Hv).
  - intros k Hk. rewrite updateBarcodeSearchStatus_lookup.
    destruct (String.eqb_spec v k); [congruence | reflexivity].
Qed.

Lemma updateBarcodeSearchStatus_unknown_witness :
  JsObject.own_get
    (scanResults (updateBarcodeSearchStatus initialState "X999" rejected))
    "X999" = Some (set_searchStatus rejected emptyObject).
Proof.
  apply (proj1 updateBarcodeSearchStatus_unknown initialState "X999" rejected).
  reflexivity.
Defined.

(** ** Verification requests of a session *)

(** C1 fails on these sessions.  After three detections of "S123" the
    verification is requested; when it returns while the count is still 3,
    the record is replaced, [newBarcode$] emits it again and the
    verification is requested again, and so on after every return.  In the
    first revision the detection of any other value has the same effect.
    In the last session "Y2" reaches the count 3 and then 4 while "Y1",
    created after it, stays at 3: no verification of "Y2" is ever
    requested. *)
Theorem verification_requested_again :
  (exists s,
     run Rev1.step Rev1.start
       (threeScans "S123"
          ++ [searchReturned (atTime 400) 0; searchReturned (atTime 800) 0]) = Some s
     /\ countAt (Rev1.state s) "S123" = Some (Some (Num 3))
     /\ requests (Rev1.log s) = [Some "S123"; Some "S123"; Some "S123"])
  /\ (exists s,
     run Rev2.step Rev2.start
       (threeScans "S123"
          ++ [searchReturned (atTime 3000) 0; searchReturned (atTime 6000) 0]) = Some s
     /\ countAt (Rev2.state s) "S123" = Some (Some (Num 3))
     /\ requests (Rev2.log s) = [Some "S123"; Some "S123"; Some "S123"])
  /\ (exists s,
     run Rev1.step Rev1.start
       (threeScans "S123" ++ [barcodeScanned (atTime 120) (qrCode "X999" None)])
       = Some s
     /\ countAt (Rev1.state s) "S123" = Some (Some (Num 3))
     /\ requests (Rev1.log s) = [Some "S123"; Some "S123"])
  /\ (exists s,
     run Rev2.step Rev2.start
       (map (fun v => barcodeScanned (atTime 0) (qrCode v None))
            ["Y2"; "Y2"; "Y1"; "Y1"; "Y1"; "Y2"; "Y2"]) = Some s
     /\ countAt (Rev2.state s) "Y2" = Some (Some (Num 4))
     /\ requests (Rev2.log s) = [Some "Y1"]).
Proof.
  repeat split; eexists; (split; [vm_compute; reflexivity|]);
    split; vm_compute; reflexivity.
Qed.

(** ** The overlay of a store *)

Lemma notify2_state env s k state' pending' done s' :
  Rev2.notify env s k state' pending' done = Some s' -> Rev2.state s' = state'.
Proof.
  unfold Rev2.notify.
  destruct (Rev2.drawBoxes _ _); [|discriminate].
  destruct (Rev2.newBarcode _ _) as [sel [b|]].
  - destruct (searchRequest b); [|discriminate].
    intros H. injection H as <-. reflexivity.
  - intros H. injection H as <-. reflexivity.
Qed.

Lemma run2_timed events :
  exists s,
    run Rev2.step Rev2.start events = Some s
    /\ timed (scanResults (Rev2.state s)).
Proof.
  destruct (run_ok Rev2.step
              (fun s => sessionOk (Rev2.state s) (Rev2.pending s)
                        /\ timed (scanResults (Rev2.state s)))) 
    with (events := events) (s := Rev2.start) as (s & Hrun & _ & Ht).
  - intros s e [Hs Ht].
    destruct (step2_ok s e Hs Ht) as (s' & H1 & H2 & H3 & _). eauto.
  - split; [split; [intros k r [] | intros c []] | intros k r []].
  - eauto.
Qed.

(** C8 (as stated) fails twice: a record seen 10 ms ago whose count is below
    the threshold is not drawn, and a record at the threshold seen exactly
    1000 ms ago is drawn. *)
Lemma overlay_not_by_freshness_alone :
  (let state := scanAll2 initialState [(0, qrCode "Y1" (Some square))] in
   countAt state "Y1" = Some (Some (Num 1))
   /\ Rev2.drawBoxes (atTime 10) (barcodesFilteredArray (scanResults state))
      = Some [ClearRect])
  /\
  (let state :=
     scanAll2 initialState
       [(0, qrCode "Y1" (Some square)); (20, qrCode "Y1" (Some square));
        (40, qrCode "Y1" (Some square))] in
   option_map timestamp (JsObject.own_get (scanResults state) "Y1")
     = Some (Some 40)
   /\ Rev2.drawBoxes (atTime 1040) (barcodesFilteredArray (scanResults state))
      = Some [ClearRect; StrokePath square]).
Proof. repeat split. Qed.

(** C8 (amended): the overlay is drawn from the ranked array.  When the
    canvas is ready, the outline of a record of the store is stroked if and
    only if its count has reached the threshold, it has corner points, and
    at most 1000 ms have passed since its timestamp when it is drawn (a
    record seen exactly 1000 ms ago is still drawn).  Drawing never fails
    on the stores of a session, and it leaves the store as it is. *)
Theorem overlay_drawn_iff :
  (forall env barcodes,
     timed barcodes ->
     exists ops,
       Rev2.drawBoxes env (barcodesFilteredArray barcodes) = Some ops
       /\ (canvasReady env = true ->
           forall points,
             In (StrokePath points) ops
             <-> exists i r t,
                   nth_error (barcodesFilteredArray barcodes) i = Some r
                   /\ In r (JsObject.values barcodes)
                   /\ meetsThreshold r = true
                   /\ cornerPoints r = Some points
                   /\ timestamp r = Some t
                   /\ clock env i - t <= 1000))
  /\ (forall events,
        exists s,
          run Rev2.step Rev2.start events = Some s
          /\ timed (scanResults (Rev2.state s)))
  /\ (forall env s k state' pending' done s',
        Rev2.notify env s k state' pending' done = Some s' ->
        Rev2.state s' = state').
Proof.
  split; [|split; [exact run2_timed | exact notify2_state]].
  intros env barcodes Ht.
  destruct (drawBoxes_total env barcodes Ht) as [ops Hops].
  exists ops. split; [exact Hops|]. intros Hready points.
  unfold Rev2.drawBoxes in Hops. rewrite Hready in Hops.
  destruct (Rev2.drawEach (clock env) 0 (barcodesFilteredArray barcodes))
    as [ops'|] eqn:Heach; [|discriminate].
  injection Hops as <-.
  pose proof (drawEach_stroke _ _ 0%nat ops' points Heach) as Hiff.
  simpl. split.
  - intros [H|H]; [discriminate|].
    apply Hiff in H. destruct H as (j & r & t & Hj & Hp & Hts & Hle).
    pose proof (nth_error_In _ _ Hj) as Hin.
    apply barcodesFilteredArray_In in Hin. destruct Hin as [Hin Hm].
    exists j, r, t. auto 10.
  - intros (j & r & t & Hj & _ & _ & Hp & Hts & Hle).
    right. apply Hiff. exists j, r, t. auto.
Qed.

Lemma overlay_drawn_iff_witness :
  let state :=
    scanAll2 initialState
      [(0, qrCode "Y1" (Some square)); (20, qrCode "Y1" (Some square));
       (40, qrCode "Y1" (Some square))] in
  exists ops,
    Rev2.drawBoxes (atTime 1041) (barcodesFilteredArray (scanResults state))
      = Some ops
    /\ ~ In (StrokePath square) ops.
Proof.
  intros state.
  destruct (proj1 overlay_drawn_iff (atTime 1041) (scanResults state))
    as (ops & Hops & Hiff).
  - intros k r [H|[]] _. injection H as _ <-. discriminate.
  - exists ops. split; [exact Hops|].
    intros Hin. apply (Hiff eq_refl) in Hin.
    destruct Hin as (i & r & t & Hi & _ & _ & _ & Hts & Hle).
    destruct i as [|[|i]]; simpl in Hi; try discriminate.
    injection Hi as <-. injection Hts as <-. simpl in Hle. lia.
Defined.


(** * Further properties *)

(** ** One event, in either revision *)

Lemma run_app {St} (step : St -> Event -> option St) evs : forall evs' s,
  run step s (evs ++ evs')
  = match run step s evs with
    | Some s1 => run step s1 evs'
    | None => None
    end.
Proof.
  induction evs as [|e evs IH]; intros evs' s; simpl; [reflexivity|].
  destruct (step s e); [apply IH | reflexivity].
Qed.

Lemma calls_app l l' : calls (l ++ l') = calls l ++ calls l'.
Proof. unfold calls. now rewrite flat_map_app. Qed.

Lemma drawEach_effects clock arr : forall i ops x,
  Rev2.drawEach clock i arr = Some ops -> In x ops ->
  exists p, x = StrokePath p.
Proof.
  induction arr as [|r arr IH]; intros i ops x; simpl.
  - intros H. injection H as <-. intros [].
  - destruct (Rev2.drawBox (clock i) r) as [ops1|] eqn:H1; [|discriminate].
    destruct (Rev2.drawEach clock (S i) arr) as [ops2|] eqn:H2; [|discriminate].
    intros H. injection H as <-. intros Hin. apply in_app_or in Hin.
    destruct Hin as [Hin|Hin].
    + exact (drawBox_only_strokes _ _ _ _ H1 Hin).
    + exact (IH _ _ _ H2 Hin).
Qed.

Lemma drawBoxes_effects env arr ops x :
  Rev2.drawBoxes env arr = Some ops -> In x ops ->
  x = ClearRect \/ exists p, x = StrokePath p.
Proof.
  unfold Rev2.drawBoxes. destruct (canvasReady env).
  - destruct (Rev2.drawEach (clock env) 0 arr) as [ops'|] eqn:H; [|discriminate].
    intros H'. injection H' as <-. intros [Hin|Hin]; [now left|].
    right. exact (drawEach_effects _ _ _ _ _ H Hin).
  - intros H. injection H as <-. intros [].
Qed.

Lemma calls_drawn env arr ops :
  Rev2.drawBoxes env arr = Some ops -> calls ops = [].
Proof.
  intros H. unfold calls.
  assert (Hall : forall x, In x ops -> x = ClearRect \/ exists p, x = StrokePath p)
    by (intros x; apply (drawBoxes_effects _ _ _ _ H)).
  clear H. induction ops as [|x ops IH]; [reflexivity|].
  simpl. rewrite IH by (intros; apply Hall; now right).
  destruct (Hall x (or_introl eq_refl)) as [->|[p ->]]; reflexivity.
Qed.

Lemma notify1_done s state' pending' done s' :
  Rev1.notify s state' pending' done = Some s' ->
  Rev1.state s' = state'
  /\ exists new,
       Rev1.log s' = Rev1.log s ++ done ++ new
       /\ selectorEffects state' pending' (Rev1.pending s') new.
Proof.
  unfold Rev1.notify.
  set (beeps := if Nat.eqb _ _ then [] else [Beep scanned]).
  assert (Hbeeps : forall x, In x beeps -> x = Beep scanned).
  { subst beeps. destruct (Nat.eqb _ _); [intros x [] | intros x [<-|[]]]; reflexivity. }
  assert (Hcalls : calls beeps = []).
  { subst beeps. now destruct (Nat.eqb _ _). }
  destruct (Rev1.newBarcode (scanResults state')) as [b|] eqn:Hnew.
  - rewrite newBarcode1_spec in Hnew. apply lastOf_In, filter_In in Hnew.
    destruct (searchRequest b) as [c|] eqn:Hreq; [|discriminate].
    intros H. injection H as <-. split; [reflexivity|].
    exists ([ApiCall c] ++ beeps). cbn [Rev1.log Rev1.pending].
    split; [reflexivity|]. split; [|split].
    + intros x [<-|Hx]; [split; [discriminate | reflexivity]|].
      rewrite (Hbeeps x Hx). split; [discriminate | reflexivity].
    + intros c' [Hc|Hc].
      * injection Hc as <-. exists b. tauto.
      * apply Hbeeps in Hc. discriminate.
    + rewrite calls_app, Hcalls. reflexivity.
  - intros H. injection H as <-. split; [reflexivity|].
    exists beeps. cbn [Rev1.log Rev1.pending].
    split; [reflexivity|]. split; [|split].
    + intros x Hx. rewrite (Hbeeps x Hx). split; [discriminate | reflexivity].
    + intros c Hc. apply Hbeeps in Hc. discriminate.
    + rewrite Hcalls. now rewrite app_nil_r.
Qed.

Lemma notify2_done env s k state' pending' done s' :
  Rev2.notify env s k state' pending' done = Some s' ->
  Rev2.state s' = state'
  /\ exists new,
       Rev2.log s' = Rev2.log s ++ done ++ new
       /\ selectorEffects state' pending' (Rev2.pending s') new.
Proof.
  unfold Rev2.notify.
  destruct (Rev2.drawBoxes _ _) as [drawn|] eqn:Hdraw; [|discriminate].
  assert (Hdrawn : forall x, In x drawn ->
                     x <> StopScan /\ isCompletion x = false
                     /\ forall c, x <> ApiCall c).
  { intros x Hx. destruct (drawBoxes_effects _ _ _ _ Hdraw Hx) as [->|[p ->]];
      repeat split; discriminate. }
  pose proof (calls_drawn _ _ _ Hdraw) as Hcalls.
  destruct (Rev2.newBarcode _ _) as [sel [b|]] eqn:Hnew.
  - apply newBarcode2_In in Hnew.
    destruct (searchRequest b) as [c|] eqn:Hreq; [|discriminate].
    intros H. injection H as <-. split; [reflexivity|].
    exists (drawn ++ [ApiCall c; Beep scanned]). cbn [Rev2.log Rev2.pending].
    split; [reflexivity|]. split; [|split].
    + intros x Hx. apply in_app_or in Hx.
      destruct Hx as [Hx|[<-|[<-|[]]]];
        [split; apply (Hdrawn x Hx) | split; [discriminate|reflexivity]..].
    + intros c' Hc. apply in_app_or in Hc.
      destruct Hc as [Hc|[Hc|[Hc|[]]]].
      * destruct (Hdrawn _ Hc) as (_ & _ & Hno). now destruct (Hno c').
      * injection Hc as <-. exists b. tauto.
      * discriminate.
    + rewrite calls_app, Hcalls. reflexivity.
  - intros H. injection H as <-. split; [reflexivity|].
    exists drawn. cbn [Rev2.log Rev2.pending].
    split; [reflexivity|]. split; [|split].
    + intros x Hx. split; apply (Hdrawn x Hx).
    + intros c Hc. destruct (Hdrawn _ Hc) as (_ & _ & Hno). now destruct (Hno c).
    + rewrite Hcalls. now rewrite app_nil_r.
Qed.

(** Every event can be handled in a reached session, leads to a reached
    session, and does what [eventDone] says. *)
Lemma step_rev1 s e :
  reached rev1 s ->
  exists s', stepOf rev1 s e = Some s' /\ reached rev1 s' /\ eventDone rev1 s e s'.
Proof.
  intros [Hok _]. cbn in Hok.
  destruct (step1_ok s e Hok) as (s' & Hstep & Hok' & _).
  exists s'. split; [exact Hstep|]. split; [split; [exact Hok' | exact I]|].
  cbn in Hstep. unfold Rev1.step in Hstep. unfold eventDone.
  cbn [stateOf pendingOf logOf updateOf rev1].
  destruct e as [env b|env i].
  - destruct (notify1_done _ _ _ _ _ Hstep) as (Hst & new & Hlog & Hsel).
    split; [exact Hst|]. exists new. rewrite app_nil_l in Hlog.
    rewrite Hst in *. auto.
  - destruct (nth_error (Rev1.pending s) i) as [c|].
    + destruct (searchCompleted (Rev1.state s) c) as [done state'].
      destruct (notify1_done _ _ _ _ _ Hstep) as (Hst & new & Hlog & Hsel).
      cbn [fst snd]. split; [exact Hst|]. exists new. rewrite Hst. auto.
    + now injection Hstep as <-.
Qed.

Lemma step_rev2 s e :
  reached rev2 s ->
  exists s', stepOf rev2 s e = Some s' /\ reached rev2 s' /\ eventDone rev2 s e s'.
Proof.
  intros [Hok Ht]. cbn in Hok, Ht.
  destruct (step2_ok s e Hok Ht) as (s' & Hstep & Hok' & Ht' & _).
  exists s'. split; [exact Hstep|]. split; [split; [exact Hok' | exact Ht']|].
  cbn in Hstep. unfold Rev2.step in Hstep. unfold eventDone.
  cbn [stateOf pendingOf logOf updateOf rev2].
  destruct e as [env b|env i].
  - destruct (notify2_done _ _ _ _ _ _ _ Hstep) as (Hst & new & Hlog & Hsel).
    split; [exact Hst|]. exists new. rewrite app_nil_l in Hlog.
    rewrite Hst in *. auto.
  - destruct (nth_error (Rev2.pending s) i) as [c|].
    + destruct (searchCompleted (Rev2.state s) c) as [done state'].
      destruct (notify2_done _ _ _ _ _ _ _ Hstep) as (Hst & new & Hlog & Hsel).
      cbn [fst snd]. split; [exact Hst|]. exists new. rewrite Hst. auto.
    + now injection Hstep as <-.
Qed.

Lemma start_reached1 : reached rev1 (startOf rev1).
Proof. split; [split; [intros k r [] | intros c []] | exact I]. Qed.

Lemma start_reached2 : reached rev2 (startOf rev2).
Proof. split; [split; [intros k r [] | intros c []] | intros k r []]. Qed.

Lemma updateLaws1 : forall env, updateLaws (updateOf rev1 env).
Proof.
  intros env state b. split.
  - eexists. reflexivity.
  - now apply updateScanResults1_count.
Qed.

Lemma updateLaws2 : forall env, updateLaws (updateOf rev2 env).
Proof.
  intros env state b. split.
  - eexists. reflexivity.
  - now apply updateScanResults2_count.
Qed.

(** ** Keys of an object *)

Lemma In_keys_own_get {V} (o : JsObject.t V) k :
  In k (JsObject.keys o) <-> JsObject.own_get o k <> None.
Proof.
  induction o as [|[k0 v0] o IH]; simpl; [tauto|].
  destruct (String.eqb_spec k0 k) as [->|Hne].
  - split; [discriminate | auto].
  - rewrite <- IH. split; [intros [?|?]; [congruence | assumption] | auto].
Qed.

Lemma keys_set_known {V} (o : JsObject.t V) k v x :
  JsObject.own_get o k = Some x ->
  JsObject.keys (JsObject.set o k v) = JsObject.keys o.
Proof. intros H. unfold JsObject.set. rewrite H. apply keys_overwrite. Qed.

Lemma keys_insert_index_perm {V} n k v (o : JsObject.t V) :
  Permutation (JsObject.keys (JsObject.insert_index n k v o))
              (k :: JsObject.keys o).
Proof.
  induction o as [|[k0 v0] o IH]; simpl; [reflexivity|].
  destruct (JsObject.array_index k0) as [n'|]; [destruct (n' <? n)%N|];
    simpl; try reflexivity.
  rewrite IH. apply perm_swap.
Qed.

Lemma keys_set_new {V} (o : JsObject.t V) k v :
  JsObject.own_get o k = None ->
  Permutation (JsObject.keys (JsObject.set o k v)) (k :: JsObject.keys o).
Proof.
  intros H. unfold JsObject.set, JsObject.define_new. rewrite H.
  destruct (JsObject.array_index k).
  - apply keys_insert_index_perm.
  - unfold JsObject.keys. rewrite map_app. simpl.
    symmetry. apply Permutation_cons_append.
Qed.

Lemma In_keys_set {V} (o : JsObject.t V) k v k' :
  In k' (JsObject.keys (JsObject.set o k v)) <-> k' = k \/ In k' (JsObject.keys o).
Proof.
  rewrite !In_keys_own_get, own_get_set.
  destruct (String.eqb_spec k k') as [->|Hne].
  - split; [auto | discriminate].
  - split; [auto | intros [?|?]; [congruence | assumption]].
Qed.

Lemma NoDup_keys_set {V} (o : JsObject.t V) k v :
  NoDup (JsObject.keys o) -> NoDup (JsObject.keys (JsObject.set o k v)).
Proof.
  intros Hnd. destruct (JsObject.own_get o k) as [x|] eqn:Hk.
  - now rewrite (keys_set_known o k v x Hk).
  - eapply Permutation_NoDup; [symmetry; now apply keys_set_new|].
    constructor; [|exact Hnd]. rewrite In_keys_own_get. congruence.
Qed.

(** ** Runs of a component *)

Lemma detected_app evs evs' : detected (evs ++ evs') = detected evs ++ detected evs'.
Proof. unfold detected. apply flat_map_app. Qed.

Lemma completed_lookup state c k :
  requestOk (scanResults state) c ->
  exists key r,
    JsObject.own_get (scanResults state) key = Some r
    /\ displayValue (barcode c) = Some key
    /\ JsObject.own_get (scanResults (snd (searchCompleted state c))) k
       = if String.eqb key k
         then Some (set_searchStatus (verdict key) r)
         else JsObject.own_get (scanResults state) k.
Proof.
  intros (key & r & Hd & Hk & Hm & Hr). exists key, r.
  split; [exact Hr|]. split; [exact Hd|].
  unfold searchCompleted. cbn [snd]. rewrite Hd. cbn [toPropertyKey].
  rewrite updateBarcodeSearchStatus_lookup, (get_own _ _ _ Hr).
  cbn [fields]. unfold verdict. now rewrite Hm.
Qed.

Lemma completed_keys state c :
  requestOk (scanResults state) c ->
  JsObject.keys (scanResults (snd (searchCompleted state c)))
  = JsObject.keys (scanResults state).
Proof.
  intros (key & r & Hd & Hk & Hm & Hr).
  unfold searchCompleted, updateBarcodeSearchStatus. cbn [snd scanResults].
  rewrite Hd. cbn [toPropertyKey]. now apply keys_set_known with (x := r).
Qed.

Lemma NoDup_keys_own_get {V} (o : JsObject.t V) k v :
  NoDup (JsObject.keys o) -> In (k, v) o -> JsObject.own_get o k = Some v.
Proof.
  induction o as [|[k0 v0] o IH]; simpl; [tauto|].
  intros Hnd [H|H].
  - injection H as -> ->. now rewrite String.eqb_refl.
  - inversion_clear Hnd as [|? ? Hk0 Hnd'].
    destruct (String.eqb_spec k0 k) as [->|]; [|auto].
    exfalso. apply Hk0. unfold JsObject.keys.
    change k with (fst (k, v)). now apply in_map.
Qed.

Lemma count_occ_snoc (l : list string) x k :
  count_occ string_dec (l ++ [x]) k
  = (count_occ string_dec l k + if string_dec x k then 1 else 0)%nat.
Proof.
  rewrite count_occ_app. simpl. now destruct (string_dec x k).
Qed.

Lemma detections_snoc k evs e :
  (detections k evs <= detections k (evs ++ [e]))%nat.
Proof.
  unfold detections. rewrite detected_app, count_occ_app. lia.
Qed.

Section Sessions.
Variable C : Component.

Hypothesis step_ok :
  forall s e, reached C s ->
    exists s', stepOf C s e = Some s' /\ reached C s' /\ eventDone C s e s'.
Hypothesis start_ok : reached C (startOf C).
Hypothesis update_ok : forall env, updateLaws (updateOf C env).
Hypothesis start_empty : startsEmpty C.

Lemma update_other env state b k :
  k <> Barcode.displayValue b ->
  JsObject.own_get (scanResults (updateOf C env state b)) k
  = JsObject.own_get (scanResults state) k.
Proof.
  intros Hk. destruct (update_ok env state b) as [[r ->] _].
  apply own_get_set_ne. congruence.
Qed.

Lemma reached_request s i c :
  reached C s -> nth_error (pendingOf C s) i = Some c ->
  requestOk (storeOf C s) c.
Proof.
  intros [[_ Hp] _] Hc. apply Hp. eapply nth_error_In; eauto.
Qed.

Lemma keys_step evs s e s' :
  reached C s -> keysInv C evs s -> eventDone C s e s' ->
  keysInv C (evs ++ [e]) s'.
Proof.
  intros Hs [Hnd Hkeys] Hdone. unfold keysInv, storeOf in *.
  rewrite detected_app. revert Hdone. unfold eventDone.
  destruct e as [env b|env i]; intros Hdone.
  - destruct Hdone as [Hst _]. rewrite Hst.
    destruct (update_ok env (stateOf C s) b) as [[r ->] _]. split.
    + now apply NoDup_keys_set.
    + intros k. rewrite In_keys_set, in_app_iff, Hkeys. simpl. intuition.
  - simpl. rewrite app_nil_r. revert Hdone.
    destruct (nth_error (pendingOf C s) i) as [c|] eqn:Hc; intros Hdone.
    + destruct Hdone as [Hst _]. rewrite Hst.
      rewrite (completed_keys _ _ (reached_request s i c Hs Hc)). auto.
    + subst s'. auto.
Qed.

Lemma count_step evs s e s' :
  reached C s -> countInv C evs s -> eventDone C s e s' ->
  countInv C (evs ++ [e]) s'.
Proof.
  intros Hs IH Hdone k. unfold countInv, detections in *.
  rewrite detected_app. revert Hdone. unfold eventDone.
  destruct e as [env b|env i]; intros Hdone.
  - destruct Hdone as [Hst _]. rewrite Hst. simpl detected.
    rewrite count_occ_snoc.
    destruct (string_dec (Barcode.displayValue b) k) as [<-|Hne].
    + rewrite (proj2 (update_ok env (stateOf C s) b)).
      specialize (IH (Barcode.displayValue b)).
      unfold countAfter, countAt, get in *.
      destruct (JsObject.own_get _ _) as [r|];
        destruct (count_occ _ _ _) as [|n]; cbn [option_map] in IH;
        try discriminate.
      * injection IH as ->. rewrite Nat.add_1_r.
        destruct (inherited _); [reflexivity|].
        cbn [plus1]. do 3 f_equal. lia.
      * now destruct (inherited _).
    + rewrite Nat.add_0_r, <- IH. unfold countAt.
      rewrite update_other; [reflexivity | congruence].
  - simpl detected. rewrite app_nil_r, <- IH. revert Hdone.
    destruct (nth_error (pendingOf C s) i) as [c|] eqn:Hc; intros Hdone.
    + destruct Hdone as [Hst _]. rewrite Hst. unfold countAt.
      destruct (completed_lookup _ c k (reached_request s i c Hs Hc))
        as (key & r & Hr & _ & ->).
      destruct (String.eqb_spec key k) as [->|]; [|reflexivity].
      now rewrite Hr.
    + now subst s'.
Qed.

(** Induction over the events handled so far. *)
Lemma run_snoc_ind (R : list Event -> session C -> Prop) :
  R [] (startOf C) ->
  (forall evs s e s',
     reached C s -> keysInv C evs s -> countInv C evs s -> R evs s ->
     reached C s' -> keysInv C (evs ++ [e]) s' ->
     countInv C (evs ++ [e]) s' -> eventDone C s e s' ->
     stepOf C s e = Some s' ->
     R (evs ++ [e]) s') ->
  forall events,
  exists s,
    runOf C events = Some s
    /\ reached C s /\ keysInv C events s /\ countInv C events s
    /\ R events s.
Proof.
  intros Hstart Hstep events. unfold runOf.
  induction events as [|e events IH] using rev_ind.
  - exists (startOf C). pose proof start_empty as Hse.
    unfold startsEmpty in Hse. destruct Hse as (Hst0 & _).
    split; [reflexivity|]. split; [exact start_ok|].
    split; [|split; [|exact Hstart]].
    + unfold keysInv, storeOf. rewrite Hst0. simpl.
      split; [constructor | tauto].
    + intros k. rewrite Hst0. reflexivity.
  - destruct IH as (s & Hrun & Hs & Hk & Hc & HR).
    destruct (step_ok s e Hs) as (s' & Hs' & Hreach & Hdone).
    exists s'. rewrite run_app, Hrun. simpl. rewrite Hs'.
    pose proof (keys_step _ _ _ _ Hs Hk Hdone) as Hk'.
    pose proof (count_step _ _ _ _ Hs Hc Hdone) as Hc'.
    split; [reflexivity|]. split; [exact Hreach|].
    split; [exact Hk'|]. split; [exact Hc'|]. eauto.
Qed.

Lemma keys_detected : keysAreDetected C.
Proof.
  intros events.
  destruct (run_snoc_ind (fun _ _ => True)) with (events := events)
    as (s & Hrun & _ & Hk & _); eauto.
Qed.

Lemma counts_detections : countsAreDetections C.
Proof.
  intros events.
  destruct (run_snoc_ind (fun _ _ => True)) with (events := events)
    as (s & Hrun & _ & _ & Hc & _); eauto.
Qed.

(** Forward induction from a reached session, over events that satisfy a
    guard. *)
Lemma run_from_ind (guard : Event -> Prop) (P : session C -> Prop) :
  (forall s e s',
     reached C s -> P s -> guard e -> reached C s' -> eventDone C s e s' ->
     stepOf C s e = Some s' ->
     P s') ->
  forall events s,
    reached C s -> P s -> Forall guard events ->
    exists s', run (stepOf C) s events = Some s' /\ reached C s' /\ P s'.
Proof.
  intros Hstep events. induction events as [|e events IH]; intros s Hs HP Hg.
  - exists s. auto.
  - inversion_clear Hg as [|? ? He Hes].
    destruct (step_ok s e Hs) as (s1 & Hs1 & Hreach & Hdone).
    simpl. rewrite Hs1. apply IH; eauto.
Qed.
(** The effects of a completed verification. *)
Lemma completed_effects state c :
  calls (fst (searchCompleted state c)) = []
  /\ completions (fst (searchCompleted state c)) = 1%nat
  /\ (forall x, In x (fst (searchCompleted state c)) ->
        isMatched c = false -> x = Beep rejected).
Proof.
  unfold searchCompleted. cbn [fst].
  destruct (isMatched c); cbn; repeat split; try reflexivity.
  - discriminate.
  - intros x [<-|[]] _. reflexivity.
Qed.

Lemma selector_no_completion state' p p' new :
  selectorEffects state' p p' new -> completions new = 0%nat.
Proof.
  intros (Hnew & _). unfold completions.
  induction new as [|x new IH]; [reflexivity|]. simpl.
  rewrite (proj2 (Hnew x (or_introl eq_refl))).
  apply IH. intros y Hy. apply Hnew. now right.
Qed.

Lemma completions_app l l' :
  completions (l ++ l') = (completions l + completions l')%nat.
Proof. unfold completions. now rewrite filter_app, length_app. Qed.

Lemma removeAt_length {A} (l : list A) i x :
  nth_error l i = Some x -> S (List.length (removeAt i l)) = List.length l.
Proof.
  intros H. assert (Hi : (i < List.length l)%nat)
    by (apply nth_error_Some; congruence).
  unfold removeAt. rewrite length_app, length_firstn, length_skipn. lia.
Qed.

Lemma requests_conserved : requestsConserved C.
Proof.
  intros events.
  destruct (run_snoc_ind
              (fun _ s =>
                 List.length (calls (logOf C s))
                 = (List.length (pendingOf C s) + completions (logOf C s))%nat))
    with (events := events) as (s & Hrun & _ & _ & _ & HR).
  - pose proof start_empty as (_ & -> & ->). reflexivity.
  - intros evs s e s' Hs _ _ IH _ _ _ Hdone _. revert Hdone. unfold eventDone.
    destruct e as [env b|env i].
    + intros (_ & new & -> & Hsel).
      pose proof (selector_no_completion _ _ _ _ Hsel) as H0.
      destruct Hsel as (_ & _ & ->).
      rewrite calls_app, completions_app, !length_app, H0. lia.
    + destruct (nth_error (pendingOf C s) i) as [c|] eqn:Hc.
      * intros (_ & new & -> & Hsel).
        pose proof (selector_no_completion _ _ _ _ Hsel) as H0.
        destruct Hsel as (_ & _ & ->).
        destruct (completed_effects (stateOf C s) c) as (Hc0 & Hc1 & _).
        rewrite !calls_app, !completions_app, !length_app, Hc0, Hc1, H0.
        pose proof (removeAt_length _ _ _ Hc). simpl. lia.
      * intros ->. exact IH.
  - eauto.
Qed.

Lemma stops_only_on_match : stopsOnlyOnMatch C.
Proof.
  intros events Hnone.
  destruct (run_snoc_ind
              (fun evs s =>
                 (forall v, In v (detected evs) -> isMatch v = false) ->
                 ~ In StopScan (logOf C s) /\ ~ In (Beep matched) (logOf C s)))
    with (events := events) as (s & Hrun & _ & _ & _ & HR).
  - pose proof start_empty as (_ & _ & ->). intros _. split; intros [].
  - intros evs s e s' Hs [_ Hkeys] _ IH _ _ _ Hdone _ Hno.
    assert (Hno' : forall v, In v (detected evs) -> isMatch v = false).
    { intros v Hv. apply Hno. rewrite detected_app. apply in_or_app. now left. }
    destruct (IH Hno') as [IH1 IH2]. revert Hdone. unfold eventDone.
    assert (Hsel : forall p p' st new,
               selectorEffects st p p' new ->
               ~ In StopScan new /\ ~ In (Beep matched) new).
    { intros p p' st new (Hnew & _). split; intros Hin.
      - now destruct (proj1 (Hnew _ Hin)).
      - now pose proof (proj2 (Hnew _ Hin)). }
    destruct e as [env b|env i].
    + intros (_ & new & -> & Hnew). destruct (Hsel _ _ _ _ Hnew).
      split; intros Hin; apply in_app_or in Hin; tauto.
    + destruct (nth_error (pendingOf C s) i) as [c|] eqn:Hc.
      * intros (_ & new & -> & Hnew). destruct (Hsel _ _ _ _ Hnew).
        destruct (reached_request s i c Hs Hc) as (k & r & Hd & Hk & Hm & Hr).
        assert (Hfalse : isMatched c = false).
        { rewrite Hm. apply Hno'. apply Hkeys.
          apply In_keys_own_get. rewrite Hr. discriminate. }
        destruct (completed_effects (stateOf C s) c) as (_ & _ & Hrej).
        split; intros Hin; apply in_app_or in Hin;
          destruct Hin as [Hin|Hin]; try tauto;
          apply in_app_or in Hin; destruct Hin as [Hin|Hin]; try tauto;
          discriminate (Hrej _ Hin Hfalse).
      * intros ->. auto.
  - exists s. split; [exact Hrun|]. now apply HR.
Qed.

Lemma requests_at_threshold : requestsAtThreshold C.
Proof.
  intros events.
  destruct (run_snoc_ind
              (fun evs s =>
                 forall c, In (ApiCall c) (logOf C s) ->
                   exists k,
                     displayValue (barcode c) = Some k
                     /\ inherited k = false
                     /\ count (barcode c) = Some (Num POSITIVE_SCAN_THRESHOLD)
                     /\ isMatched c = isMatch k
                     /\ (3 <= detections k evs)%nat))
    with (events := events) as (s & Hrun & _ & _ & _ & HR).
  - pose proof start_empty as (_ & _ & ->). intros c [].
  - intros evs s e s' Hs _ _ IH Hs' [Hnd' _] Hcount' Hdone _ c Hin.
    assert (Hold : In (ApiCall c) (logOf C s) ->
                   exists k,
                     displayValue (barcode c) = Some k
                     /\ inherited k = false
                     /\ count (barcode c) = Some (Num POSITIVE_SCAN_THRESHOLD)
                     /\ isMatched c = isMatch k
                     /\ (3 <= detections k (evs ++ [e]))%nat).
    { intros H. destruct (IH c H) as (k & ? & ? & ? & ? & ?).
      exists k. pose proof (detections_snoc k evs e). repeat split; auto. lia. }
    assert (Hnew : forall p p' new,
               selectorEffects (stateOf C s') p p' new ->
               In (ApiCall c) new ->
               exists k,
                 displayValue (barcode c) = Some k
                 /\ inherited k = false
                 /\ count (barcode c) = Some (Num POSITIVE_SCAN_THRESHOLD)
                 /\ isMatched c = isMatch k
                 /\ (3 <= detections k (evs ++ [e]))%nat).
    { intros p p' new (_ & Hreq & _) Hc.
      destruct (Hreq c Hc) as (b & Hb & Hat & Hsr).
      apply values_In in Hb. destruct Hb as [k Hb].
      destruct Hs' as [[Hstore _] _].
      destruct (recordOk_displayValue k b (Hstore k b Hb) Hat) as [Hk Hd].
      unfold searchRequest in Hsr. rewrite Hd in Hsr. injection Hsr as <-.
      exists k. cbn [barcode isMatched].
      pose proof (proj1 (atThreshold_count b) Hat) as Hc3.
      repeat split; auto.
      pose proof (NoDup_keys_own_get _ k b Hnd' Hb) as Hget.
      specialize (Hcount' k). unfold countAt, storeOf in *.
      rewrite Hget in Hcount'. cbn [option_map] in Hcount'.
      rewrite Hc3, Hk in Hcount'.
      destruct (detections k (evs ++ [e])) as [|n]; [discriminate|].
      injection Hcount' as Hn. lia. }
    revert Hdone Hin. unfold eventDone. destruct e as [env b|env i].
    + intros (_ & new & -> & Hsel) Hin. apply in_app_or in Hin.
      destruct Hin as [Hin|Hin]; eauto.
    + destruct (nth_error (pendingOf C s) i) as [c0|] eqn:Hc0.
      * intros (_ & new & -> & Hsel) Hin. apply in_app_or in Hin.
        destruct Hin as [Hin|Hin]; [eauto|].
        apply in_app_or in Hin. destruct Hin as [Hin|Hin]; [|eauto].
        exfalso. unfold searchCompleted in Hin. cbn [fst] in Hin.
        destruct (isMatched c0); cbn in Hin;
          repeat (destruct Hin as [Hin|Hin]; [discriminate|]); exact Hin.
      * intros -> Hin. exact (Hold Hin).
  - eauto.
Qed.
(** The list shown. *)
Lemma meetsThreshold_count r :
  meetsThreshold r = true -> exists z, count r = Some (Num z) /\ 3 <= z.
Proof.
  unfold meetsThreshold, POSITIVE_SCAN_THRESHOLD.
  destruct (count r) as [[z|]|]; try discriminate.
  intros H. apply Z.leb_le in H. eauto.
Qed.

Lemma recordOk_meets k r :
  recordOk k r -> meetsThreshold r = true ->
  inherited k = false /\ displayValue r = Some k
  /\ (searchStatus r = Some scanned \/ searchStatus r = Some (verdict k)).
Proof.
  unfold recordOk. intros Hok Hm.
  destruct (meetsThreshold_count r Hm) as (z & Hz & _).
  destruct (inherited k); [congruence|]. tauto.
Qed.

Lemma NoDup_displayValues (o : JsObject.t BarcodeScanResults) :
  NoDup (JsObject.keys o) -> storeOk o ->
  NoDup (map displayValue (filter meetsThreshold (JsObject.values o))).
Proof.
  induction o as [|[k0 r0] o IH]; intros Hnd Hok; simpl; [constructor|].
  inversion_clear Hnd as [|? ? Hk0 Hnd'].
  assert (Hok' : storeOk o) by (intros k r H; apply Hok; now right).
  destruct (meetsThreshold r0) eqn:Hm; [|auto].
  simpl. constructor; [|auto].
  intros Hin. apply in_map_iff in Hin. destruct Hin as (r & Hd & Hr).
  apply filter_In in Hr. destruct Hr as [Hr Hmr].
  apply values_In in Hr. destruct Hr as [k Hr].
  destruct (recordOk_meets k r (Hok' k r Hr) Hmr) as (_ & Hdk & _).
  destruct (recordOk_meets k0 r0 (Hok k0 r0 (or_introl eq_refl)) Hm)
    as (_ & Hd0 & _).
  assert (k = k0) by congruence. subst k.
  apply Hk0. unfold JsObject.keys. change k0 with (fst (k0, r)).
  now apply in_map.
Qed.

Lemma view_well_formed : viewWellFormed C.
Proof.
  intros events.
  destruct (run_snoc_ind (fun _ _ => True)) with (events := events)
    as (s & Hrun & [[Hstore _] _] & [Hnd _] & Hcount & _); auto.
  exists s. split; [exact Hrun|]. unfold barcodesView. split.
  - rewrite map_map. cbn [fst snd].
    eapply Permutation_NoDup.
    + apply Permutation_map. unfold barcodesFilteredArray, filterAndRank.
      apply sort_perm.
    + now apply NoDup_displayValues.
  - intros row Hrow. apply in_map_iff in Hrow. destruct Hrow as (b & <- & Hb).
    apply barcodesFilteredArray_In in Hb. destruct Hb as [Hb Hm].
    apply values_In in Hb. destruct Hb as [k Hb].
    destruct (recordOk_meets k b (Hstore k b Hb) Hm) as (Hk & Hd & Hst).
    destruct (meetsThreshold_count b Hm) as (z & Hz & Hz3).
    pose proof (NoDup_keys_own_get _ k b Hnd Hb) as Hget.
    specialize (Hcount k). unfold countAt, storeOf in *.
    rewrite Hget in Hcount. cbn [option_map] in Hcount.
    rewrite Hz, Hk in Hcount.
    destruct (detections k events) as [|n] eqn:Hn; [discriminate|].
    injection Hcount as ->.
    assert (Hst' : exists st, searchStatus b = Some st
                              /\ (st = scanned \/ st = verdict k)).
    { destruct Hst as [H|H]; eauto. }
    destruct Hst' as (st & Hsb & Hst').
    exists k, st. rewrite Hz, Hd, Hsb, Hn. repeat split; auto. lia.
Qed.
(** What the events that are not detections of [k] do to its record. *)
Lemma frame_step k s e s' r :
  reached C s -> notDetectionOf k e -> eventDone C s e s' ->
  JsObject.own_get (storeOf C s) k = Some r ->
  exists r',
    JsObject.own_get (storeOf C s') k = Some r' /\ sameButStatus r r'.
Proof.
  intros Hs Hg Hdone Hr. revert Hdone. unfold eventDone, storeOf in *.
  destruct e as [env b|env i].
  - intros [-> _]. exists r. split; [|reflexivity].
    rewrite update_other; [exact Hr | cbn in Hg; congruence].
  - destruct (nth_error (pendingOf C s) i) as [c|] eqn:Hc.
    + intros [-> _].
      destruct (completed_lookup _ c k (reached_request s i c Hs Hc))
        as (key & r0 & Hr0 & _ & ->).
      destruct (String.eqb_spec key k) as [->|].
      * exists (set_searchStatus (verdict k) r0). split; [reflexivity|].
        assert (r0 = r) by congruence. subst r0. reflexivity.
      * exists r. split; [exact Hr | reflexivity].
    + intros ->. exists r. split; [exact Hr | reflexivity].
Qed.

Lemma sameButStatus_trans r1 r2 r3 :
  sameButStatus r1 r2 -> sameButStatus r2 r3 -> sameButStatus r1 r3.
Proof. unfold sameButStatus. congruence. Qed.

Lemma run_frame k events : forall s r,
  reached C s -> Forall (notDetectionOf k) events ->
  JsObject.own_get (storeOf C s) k = Some r ->
  exists s' r',
    run (stepOf C) s events = Some s' /\ reached C s'
    /\ JsObject.own_get (storeOf C s') k = Some r' /\ sameButStatus r r'.
Proof.
  intros s r Hs Hg Hr.
  destruct (run_from_ind (notDetectionOf k)
              (fun s' => exists r',
                   JsObject.own_get (storeOf C s') k = Some r'
                   /\ sameButStatus r r'))
    with (events := events) (s := s) as (s' & Hrun & Hs' & r' & Hr' & Hsame);
    auto.
  - intros s1 e s2 Hs1 (r1 & Hr1 & Hsame1) Hge Hs2 Hdone _.
    destruct (frame_step k s1 e s2 r1 Hs1 Hge Hdone Hr1) as (r2 & Hr2 & Hsame2).
    exists r2. split; [exact Hr2|]. eapply sameButStatus_trans; eauto.
  - exists r. split; [exact Hr | reflexivity].
  - eauto 6.
Qed.

Lemma run_absent k events : forall s,
  reached C s -> Forall (notDetectionOf k) events ->
  JsObject.own_get (storeOf C s) k = None ->
  exists s',
    run (stepOf C) s events = Some s' /\ reached C s'
    /\ JsObject.own_get (storeOf C s') k = None.
Proof.
  intros s Hs Hg Hr.
  apply (run_from_ind (notDetectionOf k)
           (fun s' => JsObject.own_get (storeOf C s') k = None)); auto.
  intros s1 e s2 Hs1 Hnone Hge Hs2 Hdone _. revert Hdone.
  unfold eventDone, storeOf in *. destruct e as [env b|env i].
  - intros [-> _]. rewrite update_other; [exact Hnone | cbn in Hge; congruence].
  - destruct (nth_error (pendingOf C s1) i) as [c|] eqn:Hc.
    + intros [-> _].
      destruct (completed_lookup _ c k (reached_request s1 i c Hs1 Hc))
        as (key & r0 & Hr0 & _ & ->).
      destruct (String.eqb_spec key k) as [->|]; [congruence | exact Hnone].
    + now intros ->.
Qed.

Lemma run_reached events :
  exists s, runOf C events = Some s /\ reached C s /\ keysInv C events s.
Proof.
  destruct (run_snoc_ind (fun _ _ => True)) with (events := events)
    as (s & Hrun & Hs & Hk & _); eauto.
Qed.

Lemma others_framed : othersFramed C.
Proof.
  intros k evs evs' Hg.
  destruct (run_reached evs) as (s & Hrun & Hs & _).
  exists s. unfold runOf in *. rewrite run_app, Hrun.
  destruct (JsObject.own_get (storeOf C s) k) as [r|] eqn:Hr.
  - destruct (run_frame k evs' s r Hs Hg Hr) as (s' & r' & H1 & _ & H2 & H3).
    exists s'. repeat split; auto. eauto.
  - destruct (run_absent k evs' s Hs Hg Hr) as (s' & H1 & _ & H2).
    exists s'. repeat split; auto.
Qed.

Lemma view_complete : viewComplete C.
Proof.
  intros events.
  destruct (run_snoc_ind (fun _ _ => True)) with (events := events)
    as (s & Hrun & [[Hstore _] _] & [Hnd _] & Hcount & _); auto.
  exists s. split; [exact Hrun|]. intros k Hk Hge.
  specialize (Hcount k). rewrite Hk in Hcount.
  destruct (detections k events) as [|n] eqn:Hn; [lia|].
  unfold countAt, storeOf in *.
  destruct (JsObject.own_get (scanResults (stateOf C s)) k) as [r|] eqn:Hr;
    [|discriminate].
  cbn [option_map] in Hcount. injection Hcount as Hc.
  apply own_get_In in Hr.
  assert (Hm : meetsThreshold r = true).
  { unfold meetsThreshold, POSITIVE_SCAN_THRESHOLD. rewrite Hc.
    apply Z.leb_le. lia. }
  destruct (recordOk_meets k r (Hstore k r Hr) Hm) as (_ & Hd & Hst).
  assert (Hst' : exists st, searchStatus r = Some st).
  { destruct Hst as [H|H]; eauto. }
  destruct Hst' as (st & Hsr).
  exists st. unfold barcodesView. apply in_map_iff. exists r. split.
  - now rewrite Hc, Hd, Hsr.
  - apply barcodesFilteredArray_In. split; [|exact Hm].
    unfold JsObject.values. apply in_map_iff. now exists (k, r).
Qed.
End Sessions.

Lemma start_empty1 : startsEmpty rev1.
Proof. repeat split. Qed.

Lemma start_empty2 : startsEmpty rev2.
Proof. repeat split. Qed.

(** X1: in the sessions of both revisions the keys of the store are
    exactly the values detected so far, each of them once: no record is
    ever removed, a second record for a value is never created, and a
    verification never adds one. *)
Theorem store_keys_are_detected_values :
  keysAreDetected rev1 /\ keysAreDetected rev2.
Proof.
  split.
  - exact (keys_detected rev1 step_rev1 start_reached1 updateLaws1 start_empty1).
  - exact (keys_detected rev2 step_rev2 start_reached2 updateLaws2 start_empty2).
Qed.

(** X2: in the sessions of both revisions the count of a value is the
    number of its detections so far, whatever verifications were requested
    or have returned in between; a value that was never detected has no
    record; under a name of a property of [Object.prototype] the count is
    [NaN] instead. *)
Theorem count_is_number_of_detections :
  countsAreDetections rev1 /\ countsAreDetections rev2.
Proof.
  split.
  - exact (counts_detections rev1 step_rev1 start_reached1 updateLaws1 start_empty1).
  - exact (counts_detections rev2 step_rev2 start_reached2 updateLaws2 start_empty2).
Qed.

(** X3: in the sessions of both revisions a verification is only ever
    requested for a record whose count is exactly the threshold, of a value
    that is not a name of [Object.prototype] and has been detected at least
    three times; the outcome it carries is [isMatch] of that value. *)
Theorem requests_only_at_threshold :
  requestsAtThreshold rev1 /\ requestsAtThreshold rev2.
Proof.
  split.
  - exact (requests_at_threshold rev1 step_rev1 start_reached1 updateLaws1 start_empty1).
  - exact (requests_at_threshold rev2 step_rev2 start_reached2 updateLaws2 start_empty2).
Qed.

(** X4: in a session of either revision in which no detected value starts
    with "S" or "CAT", the scan is never stopped and the cue of a match is
    never played, whatever the order in which verifications return. *)
Theorem scan_stops_only_on_match :
  stopsOnlyOnMatch rev1 /\ stopsOnlyOnMatch rev2.
Proof.
  split.
  - exact (stops_only_on_match rev1 step_rev1 start_reached1 updateLaws1 start_empty1).
  - exact (stops_only_on_match rev2 step_rev2 start_reached2 updateLaws2 start_empty2).
Qed.

(** X5: in the sessions of both revisions every verification that was
    requested is either still in flight or has completed exactly once: the
    number of requests in the log is the number of verifications in flight
    plus the number of completion cues. *)
Theorem requests_are_conserved :
  requestsConserved rev1 /\ requestsConserved rev2.
Proof.
  split.
  - exact (requests_conserved rev1 step_rev1 start_reached1 updateLaws1 start_empty1).
  - exact (requests_conserved rev2 step_rev2 start_reached2 updateLaws2 start_empty2).
Qed.

(** X6: in the sessions of both revisions every row of the list shown
    ([barcodesView$]) is for a detected value that is not a name of
    [Object.prototype], shows the number of its detections, which is at least
    three, and a status that is [Scanned] or the verdict on the value; no
    value has two rows. *)
Theorem view_rows_are_confirmed_values :
  viewWellFormed rev1 /\ viewWellFormed rev2.
Proof.
  split.
  - exact (view_well_formed rev1 step_rev1 start_reached1 updateLaws1 start_empty1).
  - exact (view_well_formed rev2 step_rev2 start_reached2 updateLaws2 start_empty2).
Qed.

(** X7: in the sessions of both revisions the detections of other values
    and the completions of verifications, of any value, leave the record of
    a value as it is up to its status (count, geometry, timestamp and the
    fields of the barcode are kept), and never create a record for it. *)
Theorem other_events_keep_the_record :
  othersFramed rev1 /\ othersFramed rev2.
Proof.
  split.
  - exact (others_framed rev1 step_rev1 start_reached1 updateLaws1 start_empty1).
  - exact (others_framed rev2 step_rev2 start_reached2 updateLaws2 start_empty2).
Qed.

(** X17: in the sessions of both revisions every value that is not a name
    of [Object.prototype] and has been detected three times or more has a
    row in the list shown, with the number of its detections as count: rows
    are never dropped once a value is confirmed. *)
Theorem confirmed_values_have_a_row :
  viewComplete rev1 /\ viewComplete rev2.
Proof.
  split.
  - exact (view_complete rev1 step_rev1 start_reached1 updateLaws1 start_empty1).
  - exact (view_complete rev2 step_rev2 start_reached2 updateLaws2 start_empty2).
Qed.

Lemma scan_stops_only_on_match_witness :
  let events := threeScans "X999" ++ [searchReturned (atTime 3000) 0%nat] in
  (forall v, In v (detected events) -> isMatch v = false)
  /\ exists s,
       runOf rev2 events = Some s
       /\ ~ In StopScan (logOf rev2 s)
       /\ ~ In (Beep matched) (logOf rev2 s).
Proof.
  intros events.
  assert (H : forall v, In v (detected events) -> isMatch v = false).
  { intros v Hv. simpl in Hv.
    destruct Hv as [<-|[<-|[<-|[]]]]; reflexivity. }
  split; [exact H | exact (proj2 scan_stops_only_on_match events H)].
Defined.

Lemma other_events_keep_the_record_witness :
  let evs := threeScans "X999" in
  let evs' := [ barcodeScanned (atTime 120) (qrCode "S123" None);
                searchReturned (atTime 3000) 0%nat ] in
  Forall (notDetectionOf "X999") evs'
  /\ exists s s',
       runOf rev2 evs = Some s
       /\ runOf rev2 (evs ++ evs') = Some s'
       /\ match JsObject.own_get (storeOf rev2 s) "X999" with
          | Some r =>
              exists r',
                JsObject.own_get (storeOf rev2 s') "X999" = Some r'
                /\ sameButStatus r r'
          | None => JsObject.own_get (storeOf rev2 s') "X999" = None
          end.
Proof.
  intros evs evs'.
  assert (H : Forall (notDetectionOf "X999") evs').
  { repeat constructor. simpl. discriminate. }
  split; [exact H | exact (proj2 other_events_keep_the_record "X999" evs evs' H)].
Defined.

(** ** What the latest detection leaves in the record *)

Lemma run_reached1 events :
  exists s, runOf rev1 events = Some s /\ reached rev1 s /\ keysInv rev1 events s.
Proof.
  exact (run_reached rev1 step_rev1 start_reached1 updateLaws1 start_empty1 events).
Qed.

Lemma run_reached2 events :
  exists s, runOf rev2 events = Some s /\ reached rev2 s /\ keysInv rev2 events s.
Proof.
  exact (run_reached rev2 step_rev2 start_reached2 updateLaws2 start_empty2 events).
Qed.

Lemma runOf_cons (C : Component) evs e evs' s1 s2 :
  runOf C evs = Some s1 -> stepOf C s1 e = Some s2 ->
  runOf C (evs ++ e :: evs') = run (stepOf C) s2 evs'.
Proof.
  unfold runOf. intros H1 H2. rewrite run_app, H1. simpl. now rewrite H2.
Qed.

Lemma updateScanResults2_fresh t state b :
  exists r,
    JsObject.own_get (scanResults (Rev2.updateScanResults t state b))
      (Barcode.displayValue b) = Some r
    /\ timestamp r = Some t
    /\ (Barcode.cornerPoints b <> Absent ->
        cornerPoints r = read (Barcode.cornerPoints b)).
Proof.
  rewrite updateScanResults2_lookup, String.eqb_refl. cbv zeta.
  destruct (truthy (get (scanResults state) (Barcode.displayValue b)));
    eexists; (split; [reflexivity|]); (split; [reflexivity|]);
    intros Hp; cbn; now destruct (Barcode.cornerPoints b).
Qed.

(** X8: in the sessions of the second revision the timestamp of a value is
    the time of its latest detection, whatever other values were detected
    and whatever verifications returned since. *)
Theorem timestamp_is_latest_detection :
  forall evs env b evs',
    Forall (notDetectionOf (Barcode.displayValue b)) evs' ->
    exists s r,
      runOf rev2 (evs ++ barcodeScanned env b :: evs') = Some s
      /\ JsObject.own_get (storeOf rev2 s) (Barcode.displayValue b) = Some r
      /\ timestamp r = Some (now env).
Proof.
  intros evs env b evs' Hg.
  destruct (run_reached2 evs) as (s1 & Hrun1 & Hs1 & _).
  destruct (step_rev2 s1 (barcodeScanned env b) Hs1)
    as (s2 & Hstep & Hs2 & Hst & _).
  assert (Hr2 : exists r2,
             JsObject.own_get (storeOf rev2 s2) (Barcode.displayValue b) = Some r2
             /\ timestamp r2 = Some (now env)).
  { unfold storeOf. rewrite Hst. cbn [updateOf rev2].
    destruct (updateScanResults2_fresh (now env) (stateOf rev2 s1) b)
      as (r2 & ? & ? & _). eauto. }
  destruct Hr2 as (r2 & Hr2 & Ht2).
  destruct (run_frame rev2 step_rev2 updateLaws2
              (Barcode.displayValue b) evs' s2 r2 Hs2 Hg Hr2)
    as (s & r & Hrun & _ & Hr & Hsame).
  exists s, r. rewrite (runOf_cons rev2 evs _ evs' s1 s2 Hrun1 Hstep).
  split; [exact Hrun|]. split; [exact Hr|].
  apply (f_equal timestamp) in Hsame. cbn in Hsame. congruence.
Qed.

Lemma timestamp_is_latest_detection_witness :
  exists s r,
    runOf rev2
      (threeScans "S123"
         ++ barcodeScanned (atTime 120) (qrCode "S123" None)
         :: [barcodeScanned (atTime 160) (qrCode "X999" None);
             searchReturned (atTime 3000) 0]) = Some s
    /\ JsObject.own_get (storeOf rev2 s) "S123" = Some r
    /\ timestamp r = Some 120.
Proof.
  apply (timestamp_is_latest_detection (threeScans "S123") (atTime 120)
           (qrCode "S123" None)).
  repeat constructor. discriminate.
Defined.

(** X9: in the sessions of the second revision the corner points of a
    value read as the [cornerPoints] property of its latest detection whose
    event had that property: its points, or [undefined] when the property
    was there with the value [undefined].  Later detections of the value
    whose event has no such property, the detections of other values and
    the verifications leave them in place. *)
Theorem geometry_is_latest_with_points :
  forall evs env b evs',
    Barcode.cornerPoints b <> Absent ->
    Forall (noPointsFor (Barcode.displayValue b)) evs' ->
    exists s r,
      runOf rev2 (evs ++ barcodeScanned env b :: evs') = Some s
      /\ JsObject.own_get (storeOf rev2 s) (Barcode.displayValue b) = Some r
      /\ cornerPoints r = read (Barcode.cornerPoints b).
Proof.
  intros evs env b evs' Hp Hg.
  destruct (run_reached2 evs) as (s1 & Hrun1 & Hs1 & _).
  destruct (step_rev2 s1 (barcodeScanned env b) Hs1)
    as (s2 & Hstep & Hs2 & Hst & _).
  set (k := Barcode.displayValue b) in *.
  set (pts := read (Barcode.cornerPoints b)).
  assert (Hr2 : exists r2,
             JsObject.own_get (storeOf rev2 s2) k = Some r2
             /\ cornerPoints r2 = pts).
  { unfold storeOf. rewrite Hst. cbn [updateOf rev2].
    destruct (updateScanResults2_fresh (now env) (stateOf rev2 s1) b)
      as (r2 & ? & _ & Hpts). eauto. }
  destruct (run_from_ind rev2 step_rev2 (noPointsFor k)
              (fun s' => exists r,
                   JsObject.own_get (storeOf rev2 s') k = Some r
                   /\ cornerPoints r = pts))
    with (events := evs') (s := s2) as (s & Hrun & _ & r & Hr & Hc); auto.
  - intros sa e sb Hsa (ra & Hra & Hca) Hge Hsb Hdone _. revert Hdone.
    unfold eventDone, storeOf in *. destruct e as [env' b'|env' i].
    + intros [-> _]. cbn [updateOf rev2].
      rewrite updateScanResults2_lookup.
      destruct (String.eqb_spec (Barcode.displayValue b') k) as [Hk|]; [|eauto].
      rewrite Hk, (get_own _ _ _ Hra). cbn [truthy fields].
      eexists. split; [reflexivity|]. cbn. now rewrite (Hge Hk).
    + destruct (nth_error (pendingOf rev2 sa) i) as [c|] eqn:Hc0.
      * intros [-> _].
        destruct (completed_lookup _ c k
                    (reached_request rev2 sa i c Hsa Hc0))
          as (key & r0 & Hr0 & _ & ->).
        destruct (String.eqb_spec key k) as [->|]; [|eauto].
        eexists. split; [reflexivity|]. cbn. congruence.
      * intros ->. eauto.
  - exists s, r. rewrite (runOf_cons rev2 evs _ evs' s1 s2 Hrun1 Hstep). auto.
Qed.

Lemma geometry_is_latest_with_points_witness :
  (exists s r,
     runOf rev2
       ([barcodeScanned (atTime 0) (qrCode "S123" (Some square))]
          ++ barcodeScanned (atTime 40) (qrCode "S123" (Some shifted))
          :: [barcodeScanned (atTime 80) (qrCode "S123" None);
              searchReturned (atTime 3000) 0]) = Some s
     /\ JsObject.own_get (storeOf rev2 s) "S123" = Some r
     /\ cornerPoints r = Some shifted)
  /\ (exists s r,
        runOf rev2
          ([barcodeScanned (atTime 0) (qrCode "S123" (Some square))]
             ++ barcodeScanned (atTime 40) (qrCodeUndefinedPoints "S123")
             :: [barcodeScanned (atTime 80) (qrCode "S123" None);
                 searchReturned (atTime 3000) 0]) = Some s
        /\ JsObject.own_get (storeOf rev2 s) "S123" = Some r
        /\ cornerPoints r = None).
Proof.
  split.
  - apply (geometry_is_latest_with_points
             [barcodeScanned (atTime 0) (qrCode "S123" (Some square))]
             (atTime 40) (qrCode "S123" (Some shifted))).
    + discriminate.
    + repeat constructor.
  - apply (geometry_is_latest_with_points
             [barcodeScanned (atTime 0) (qrCode "S123" (Some square))]
             (atTime 40) (qrCodeUndefinedPoints "S123")).
    + discriminate.
    + repeat constructor.
Defined.

(** X10: in the sessions of the first revision a record keeps every field
    of the first detection of its value except the count and the status: the
    corner points are those of the first detection, however often the value
    is detected again, and there is never a timestamp. *)
Theorem first_detection_is_kept :
  forall evs env b evs',
    ~ In (Barcode.displayValue b) (detected evs) ->
    inherited (Barcode.displayValue b) = false ->
    exists s r,
      runOf rev1 (evs ++ barcodeScanned env b :: evs') = Some s
      /\ JsObject.own_get (storeOf rev1 s) (Barcode.displayValue b) = Some r
      /\ sameButCountAndStatus (ofBarcode b) r
      /\ cornerPoints r = read (Barcode.cornerPoints b)
      /\ timestamp r = None.
Proof.
  intros evs env b evs' Hnew Hk.
  destruct (run_reached1 evs) as (s1 & Hrun1 & Hs1 & _ & Hkeys).
  destruct (step_rev1 s1 (barcodeScanned env b) Hs1)
    as (s2 & Hstep & Hs2 & Hst & _).
  set (k := Barcode.displayValue b) in *.
  assert (Habs : JsObject.own_get (storeOf rev1 s1) k = None).
  { destruct (JsObject.own_get (storeOf rev1 s1) k) eqn:E; [|reflexivity].
    exfalso. apply Hnew, Hkeys, In_keys_own_get. congruence. }
  assert (Hr2 : exists r2,
             JsObject.own_get (storeOf rev1 s2) k = Some r2
             /\ sameButCountAndStatus (ofBarcode b) r2).
  { unfold storeOf in *. rewrite Hst. cbn [updateOf rev1].
    rewrite updateScanResults1_lookup. subst k. rewrite String.eqb_refl.
    unfold get. rewrite Habs, Hk. cbn [truthy].
    eexists. split; reflexivity. }
  destruct (run_from_ind rev1 step_rev1 (fun _ => True)
              (fun s' => exists r,
                   JsObject.own_get (storeOf rev1 s') k = Some r
                   /\ sameButCountAndStatus (ofBarcode b) r))
    with (events := evs') (s := s2) as (s & Hrun & _ & r & Hr & Hc); auto.
  - intros sa e sb Hsa (ra & Hra & Hca) _ Hsb Hdone _. revert Hdone.
    unfold eventDone, storeOf in *. destruct e as [env' b'|env' i].
    + intros [-> _]. cbn [updateOf rev1].
      rewrite updateScanResults1_lookup.
      destruct (String.eqb_spec (Barcode.displayValue b') k) as [Hkb|]; [|eauto].
      rewrite Hkb, (get_own _ _ _ Hra). cbn [truthy fields].
      eexists. split; [reflexivity|]. exact Hca.
    + destruct (nth_error (pendingOf rev1 sa) i) as [c|] eqn:Hc0.
      * intros [-> _].
        destruct (completed_lookup _ c k
                    (reached_request rev1 sa i c Hsa Hc0))
          as (key & r0 & Hr0 & _ & ->).
        destruct (String.eqb_spec key k) as [->|]; [|eauto].
        eexists. split; [reflexivity|].
        assert (r0 = ra) by congruence. subst r0. exact Hca.
      * intros ->. eauto.
  - apply Forall_forall. auto.
  - exists s, r. rewrite (runOf_cons rev1 evs _ evs' s1 s2 Hrun1 Hstep).
    repeat split; auto.
    + apply (f_equal cornerPoints) in Hc. cbn in Hc. congruence.
    + apply (f_equal timestamp) in Hc. cbn in Hc. congruence.
Qed.

Lemma first_detection_is_kept_witness :
  exists s r,
    runOf rev1
      ([barcodeScanned (atTime 0) (qrCode "X999" None)]
         ++ barcodeScanned (atTime 40) (qrCode "S123" (Some square))
         :: [barcodeScanned (atTime 80) (qrCode "S123" (Some shifted));
             barcodeScanned (atTime 120) (qrCode "S123" None)]) = Some s
    /\ JsObject.own_get (storeOf rev1 s) "S123" = Some r
    /\ cornerPoints r = Some square.
Proof.
  destruct (first_detection_is_kept
              [barcodeScanned (atTime 0) (qrCode "X999" None)]
              (atTime 40) (qrCode "S123" (Some square))
              [barcodeScanned (atTime 80) (qrCode "S123" (Some shifted));
               barcodeScanned (atTime 120) (qrCode "S123" None)])
    as (s & r & H1 & H2 & _ & H3 & _).
  - intros [H|[]]. discriminate.
  - reflexivity.
  - exists s, r. auto.
Defined.

(** ** The cue of a confirmed value *)

Lemma overwrite_absent {V} (o : JsObject.t V) k v :
  JsObject.own_get o k = None -> JsObject.overwrite k v o = o.
Proof.
  induction o as [|[k0 v0] o IH]; simpl; [reflexivity|].
  destruct (String.eqb k0 k); [discriminate|].
  intros H. now rewrite (IH H).
Qed.

Section RankedLength.
Variable f : BarcodeScanResults -> bool.

Lemma kept_overwrite (o : JsObject.t BarcodeScanResults) k v old :
  NoDup (JsObject.keys o) -> JsObject.own_get o k = Some old ->
  (List.length (filter f (JsObject.values (JsObject.overwrite k v o)))
   + b2n (f old)
   = List.length (filter f (JsObject.values o)) + b2n (f v))%nat.
Proof.
  induction o as [|[k0 r0] o IH]; simpl; [discriminate|].
  intros Hnd Hget. inversion_clear Hnd as [|? ? Hk0 Hnd'].
  destruct (String.eqb_spec k0 k) as [->|Hne].
  - injection Hget as ->.
    rewrite overwrite_absent.
    + simpl. destruct (f v), (f old); simpl; lia.
    + destruct (JsObject.own_get o k) eqn:E; [|reflexivity].
      exfalso. apply Hk0, In_keys_own_get. congruence.
  - specialize (IH Hnd' Hget). simpl. destruct (f r0); simpl; lia.
Qed.

Lemma kept_insert_index n k v (o : JsObject.t BarcodeScanResults) :
  List.length (filter f (JsObject.values (JsObject.insert_index n k v o)))
  = (List.length (filter f (JsObject.values o)) + b2n (f v))%nat.
Proof.
  induction o as [|[k0 r0] o IH]; simpl.
  - destruct (f v); reflexivity.
  - destruct (JsObject.array_index k0) as [n'|]; [destruct (n' <? n)%N|];
      simpl.
    + destruct (f r0); simpl; rewrite IH; lia.
    + destruct (f v), (f r0); simpl; lia.
    + destruct (f v), (f r0); simpl; lia.
Qed.

Lemma kept_set (o : JsObject.t BarcodeScanResults) k r :
  NoDup (JsObject.keys o) ->
  (forall old, JsObject.own_get o k = Some old -> f old = true -> f r = true) ->
  (JsObject.own_get o k = None -> f r = false) ->
  let n := List.length (filter f (JsObject.values o)) in
  let n' := List.length (filter f (JsObject.values (JsObject.set o k r))) in
  n' = n \/ n' = S n.
Proof.
  intros Hnd Hold Hnew. unfold JsObject.set.
  destruct (JsObject.own_get o k) as [old|] eqn:Hget.
  - pose proof (kept_overwrite o k r old Hnd Hget) as H.
    specialize (Hold old eq_refl).
    cbv zeta. destruct (f old); [rewrite Hold in H by reflexivity|];
      destruct (f r); simpl in H; lia.
  - cbv zeta. rewrite (Hnew eq_refl) in *. left.
    unfold JsObject.define_new. destruct (JsObject.array_index k).
    + rewrite kept_insert_index, (Hnew eq_refl). simpl. lia.
    + unfold JsObject.values. rewrite map_app, filter_app, length_app.
      simpl. rewrite (Hnew eq_refl). simpl. lia.
Qed.
End RankedLength.

Lemma ranked_length o :
  List.length (barcodesFilteredArray o)
  = List.length (filter meetsThreshold (JsObject.values o)).
Proof.
  unfold barcodesFilteredArray, filterAndRank.
  symmetry. apply Permutation_length, sort_perm.
Qed.

(** One event lets the ranked array grow by at most one record. *)
Lemma ranked_grows (C : Component) s e s' :
  (forall env, updateLaws (updateOf C env)) ->
  reached C s -> NoDup (JsObject.keys (storeOf C s)) ->
  eventDone C s e s' ->
  let n := List.length (barcodesFilteredArray (storeOf C s)) in
  let n' := List.length (barcodesFilteredArray (storeOf C s')) in
  n' = n \/ n' = S n.
Proof.
  intros Hlaws Hs Hnd Hdone. cbv zeta. rewrite !ranked_length.
  revert Hdone. unfold eventDone, storeOf in *.
  destruct e as [env b|env i].
  - intros [-> _].
    destruct (Hlaws env (stateOf C s) b) as [[r Hset] Hcount].
    unfold countAt in Hcount. rewrite Hset, own_get_set_eq in Hcount.
    cbn [option_map] in Hcount. injection Hcount as Hcount.
    rewrite Hset. apply kept_set; [exact Hnd| |].
    + intros old Hold Hm. unfold countAfter in Hcount.
      rewrite (get_own _ _ _ Hold) in Hcount.
      unfold meetsThreshold, POSITIVE_SCAN_THRESHOLD in *. rewrite Hcount.
      destruct (count old) as [[z|]|]; try discriminate. cbn.
      apply Z.leb_le in Hm. apply Z.leb_le. lia.
    + intros Hnone. unfold countAfter, get in Hcount. rewrite Hnone in Hcount.
      unfold meetsThreshold. rewrite Hcount.
      now destruct (inherited _).
  - destruct (nth_error (pendingOf C s) i) as [c|] eqn:Hc.
    + intros [-> _]. destruct Hs as [[_ Hp] _].
      destruct (Hp c (nth_error_In _ _ Hc)) as (k & r & Hd & Hk & Hm & Hr).
      unfold searchCompleted, updateBarcodeSearchStatus. cbn [snd scanResults].
      rewrite Hd. cbn [toPropertyKey]. rewrite (get_own _ _ _ Hr).
      cbn [fields]. apply kept_set; [exact Hnd| |].
      * intros old Hold. assert (old = r) by congruence. subst old. auto.
      * congruence.
    + intros ->. now left.
Qed.

Lemma scannedBeeps_app l l' :
  scannedBeeps (l ++ l') = (scannedBeeps l + scannedBeeps l')%nat.
Proof. unfold scannedBeeps. now rewrite filter_app, length_app. Qed.

Lemma completed_no_scanned state c :
  scannedBeeps (fst (searchCompleted state c)) = 0%nat.
Proof. unfold searchCompleted. cbn [fst]. now destruct (isMatched c). Qed.

Lemma notify1_beeps s state' p done s' :
  Rev1.notify s state' p done = Some s' ->
  Rev1.shown s' = List.length (barcodesFilteredArray (scanResults state'))
  /\ scannedBeeps (Rev1.log s')
     = (scannedBeeps (Rev1.log s) + scannedBeeps done
        + if Nat.eqb (Rev1.shown s)
               (List.length (barcodesFilteredArray (scanResults state')))
          then 0 else 1)%nat.
Proof.
  unfold Rev1.notify.
  destruct (Rev1.newBarcode (scanResults state')) as [b|].
  - destruct (searchRequest b) as [c|]; [|discriminate].
    intros H. injection H as <-. cbn [Rev1.shown Rev1.log].
    split; [reflexivity|]. rewrite !scannedBeeps_app.
    destruct (Nat.eqb _ _); cbn; lia.
  - intros H. injection H as <-. cbn [Rev1.shown Rev1.log].
    split; [reflexivity|]. rewrite !scannedBeeps_app.
    destruct (Nat.eqb _ _); cbn; lia.
Qed.

(** X11: in the sessions of the first revision the cue of a newly
    confirmed value has been played exactly as often as the list shown has
    rows: once for every value that reached the threshold, and never for a
    further detection or for a verification. *)
Theorem scanned_cue_once_per_row :
  forall events,
  exists s,
    runOf rev1 events = Some s
    /\ scannedBeeps (logOf rev1 s)
       = List.length (barcodesView (storeOf rev1 s)).
Proof.
  intros events.
  destruct (run_snoc_ind rev1 step_rev1 start_reached1 updateLaws1 start_empty1
              (fun _ s =>
                 Rev1.shown s
                 = List.length (barcodesFilteredArray (storeOf rev1 s))
                 /\ scannedBeeps (logOf rev1 s) = Rev1.shown s))
    with (events := events) as (s & Hrun & _ & _ & _ & Hshown & Hbeeps).
  - split; reflexivity.
  - intros evs s e s' Hs [Hnd _] _ [IH1 IH2] _ _ _ Hdone Hstep.
    pose proof (ranked_grows rev1 s e s' updateLaws1 Hs Hnd Hdone) as Hgrow.
    cbv zeta in Hgrow. rewrite <- IH1 in Hgrow.
    cbn [stepOf rev1] in Hstep. unfold Rev1.step in Hstep.
    unfold storeOf in *. cbn [stateOf logOf rev1] in *.
    destruct e as [env b|env i].
    + destruct (notify1_beeps _ _ _ _ _ Hstep) as [H1 H2].
      assert (Hst : Rev1.state s' = Rev1.updateScanResults (Rev1.state s) b)
        by apply Hdone.
      rewrite Hst in *. split; [exact H1|]. rewrite H2, H1, IH2.
      change (scannedBeeps []) with 0%nat.
      set (n' := List.length
                   (barcodesFilteredArray
                      (scanResults (Rev1.updateScanResults (Rev1.state s) b))))
        in *.
      destruct (Nat.eqb_spec (Rev1.shown s) n'); lia.
    + revert Hdone. unfold eventDone. cbn [pendingOf stateOf rev1].
      destruct (nth_error (Rev1.pending s) i) as [c|].
      * intros [Hst _].
        destruct (searchCompleted (Rev1.state s) c) as [done state'] eqn:Hc.
        destruct (notify1_beeps _ _ _ _ _ Hstep) as [H1 H2].
        cbn [snd] in Hst. rewrite Hst in *.
        pose proof (completed_no_scanned (Rev1.state s) c) as H0.
        rewrite Hc in H0. cbn [fst] in H0.
        split; [exact H1|]. rewrite H2, H1, IH2, H0.
        set (n' := List.length (barcodesFilteredArray (scanResults state')))
          in *.
        destruct (Nat.eqb_spec (Rev1.shown s) n'); lia.
      * intros ->. auto.
  - exists s. split; [exact Hrun|]. unfold barcodesView.
    rewrite length_map. congruence.
Qed.

Lemma scannedBeeps_drawn env arr ops :
  Rev2.drawBoxes env arr = Some ops -> scannedBeeps ops = 0%nat.
Proof.
  intros H. unfold scannedBeeps.
  assert (Hall : forall x, In x ops -> x = ClearRect \/ exists p, x = StrokePath p)
    by (intros x; apply (drawBoxes_effects _ _ _ _ H)).
  clear H. induction ops as [|x ops IH]; [reflexivity|].
  simpl. destruct (Hall x (or_introl eq_refl)) as [->|[p ->]]; simpl;
    apply IH; intros; apply Hall; now right.
Qed.

Lemma notify2_beeps env s k state' p done s' :
  Rev2.notify env s k state' p done = Some s' ->
  scannedBeeps done = 0%nat -> calls done = [] ->
  scannedBeeps (Rev2.log s) = List.length (calls (Rev2.log s)) ->
  scannedBeeps (Rev2.log s') = List.length (calls (Rev2.log s')).
Proof.
  unfold Rev2.notify.
  destruct (Rev2.drawBoxes _ _) as [drawn|] eqn:Hdraw; [|discriminate].
  pose proof (scannedBeeps_drawn _ _ _ Hdraw) as Hb.
  pose proof (calls_drawn _ _ _ Hdraw) as Hc.
  destruct (Rev2.newBarcode _ _) as [sel [b|]].
  - destruct (searchRequest b) as [c|]; [|discriminate].
    intros H Hd0 Hd1 IH. injection H as <-. cbn [Rev2.log].
    rewrite !scannedBeeps_app, !calls_app, !length_app, Hb, Hc, Hd0, Hd1, IH.
    cbn. lia.
  - intros H Hd0 Hd1 IH. injection H as <-. cbn [Rev2.log].
    rewrite !scannedBeeps_app, !calls_app, !length_app, Hb, Hc, Hd0, Hd1, IH.
    cbn. lia.
Qed.

(** X12: in the sessions of the second revision the cue of a newly
    confirmed value is played with every request of a verification and at no
    other time: the log holds as many of these cues as requests. *)
Theorem scanned_cue_with_every_request :
  forall events,
  exists s,
    runOf rev2 events = Some s
    /\ scannedBeeps (logOf rev2 s) = List.length (calls (logOf rev2 s)).
Proof.
  intros events.
  destruct (run_snoc_ind rev2 step_rev2 start_reached2 updateLaws2 start_empty2
              (fun _ s =>
                 scannedBeeps (logOf rev2 s)
                 = List.length (calls (logOf rev2 s))))
    with (events := events) as (s & Hrun & _ & _ & _ & HR).
  - reflexivity.
  - intros evs s e s' _ _ _ IH _ _ _ _ Hstep.
    cbn [stepOf logOf rev2] in *. unfold Rev2.step in Hstep.
    destruct e as [env b|env i].
    + now apply (notify2_beeps _ _ _ _ _ _ _ Hstep).
    + destruct (nth_error (Rev2.pending s) i) as [c|].
      * pose proof (completed_no_scanned (Rev2.state s) c) as H0.
        destruct (completed_effects (Rev2.state s) c) as (H1 & _).
        destruct (searchCompleted (Rev2.state s) c) as [done state'].
        now apply (notify2_beeps _ _ _ _ _ _ _ Hstep).
      * now injection Hstep as <-.
  - eauto.
Qed.

(** ** The ranked array *)

(** X13: [barcodesFilteredArray$] holds exactly the records of the store
    whose count has reached the threshold, each as often as in the store; the
    counts descend along the array; and records with the same count stand
    in the order in which the store enumerates them. *)
Theorem barcodesFilteredArray_is_ranked :
  forall barcodes,
    Permutation (filter meetsThreshold (JsObject.values barcodes))
                (barcodesFilteredArray barcodes)
    /\ StronglySorted (descending (fun r => r)) (barcodesFilteredArray barcodes)
    /\ forall c,
         filter (hasCount (fun r => r) c) (barcodesFilteredArray barcodes)
         = filter (hasCount (fun r => r) c)
                  (filter meetsThreshold (JsObject.values barcodes)).
Proof.
  intros barcodes. unfold barcodesFilteredArray. split; [|split].
  - unfold filterAndRank. apply sort_perm.
  - apply filterAndRank_descending.
  - intros c. unfold filterAndRank. apply sort_stable.
Qed.

(** ** Failure of the overlay *)

Lemma drawEach_fails clock arr : forall i,
  Rev2.drawEach clock i arr = None
  <-> exists r, In r arr /\ timestamp r = None.
Proof.
  induction arr as [|r arr IH]; intros i; simpl.
  - split; [discriminate | intros (r & [] & _)].
  - unfold Rev2.drawBox, Rev2.isStale.
    destruct (timestamp r) as [t|] eqn:Ht.
    + specialize (IH (S i)).
      destruct (Rev2.drawEach clock (S i) arr) as [ops|].
      * split; [discriminate|]. intros (r' & [<-|Hin] & Hr').
        -- congruence.
        -- exfalso. assert (H : Some ops = None) by (apply IH; eauto).
           discriminate.
      * split; [|reflexivity]. intros _.
        destruct (proj1 IH eq_refl) as (r' & Hin & Hr'). eauto.
    + split; [|reflexivity]. intros _. exists r. auto.
Qed.

(** X14: [drawBoxes] raises a [TypeError] exactly when the canvas is ready
    and one of the records it is given has no timestamp; without a canvas
    it does nothing, whatever the records are. *)
Theorem drawBoxes_fails_iff :
  forall env arr,
    (Rev2.drawBoxes env arr = None
     <-> canvasReady env = true /\ exists r, In r arr /\ timestamp r = None)
    /\ (canvasReady env = false -> Rev2.drawBoxes env arr = Some []).
Proof.
  intros env arr. unfold Rev2.drawBoxes.
  destruct (canvasReady env); split; try (intros; reflexivity || discriminate).
  - rewrite <- (drawEach_fails (clock env) arr 0).
    destruct (Rev2.drawEach (clock env) 0 arr); simpl.
    + split; [discriminate | intros [_ H]; discriminate].
    + tauto.
  - split; [discriminate | intros [H _]; discriminate].
Qed.

(** ** Composition of the updaters *)

Section Composition.
Context {V : Type}.
Implicit Types (o : JsObject.t V) (k : string).

Lemma overwrite_twice o k a b :
  JsObject.overwrite k b (JsObject.overwrite k a o) = JsObject.overwrite k b o.
Proof.
  induction o as [|[k0 v0] o IH]; simpl; [reflexivity|].
  rewrite IH. destruct (String.eqb_spec k0 k) as [->|Hne]; simpl.
  - now rewrite String.eqb_refl.
  - now destruct (String.eqb_spec k0 k).
Qed.

Lemma overwrite_comm o k k' a b :
  k <> k' ->
  JsObject.overwrite k a (JsObject.overwrite k' b o)
  = JsObject.overwrite k' b (JsObject.overwrite k a o).
Proof.
  intros Hne. induction o as [|[k0 v0] o IH]; simpl; [reflexivity|].
  rewrite IH. f_equal.
  destruct (String.eqb_spec k0 k') as [H1|H1];
    destruct (String.eqb_spec k0 k) as [H2|H2]; simpl;
    try congruence.
  - destruct (String.eqb_spec k0 k'), (String.eqb_spec k0 k);
      congruence.
  - destruct (String.eqb_spec k0 k'), (String.eqb_spec k0 k);
      congruence.
  - destruct (String.eqb_spec k0 k'), (String.eqb_spec k0 k);
      congruence.
Qed.

Lemma overwrite_insert_index o n k k' a b :
  k <> k' ->
  JsObject.overwrite k' b (JsObject.insert_index n k a o)
  = JsObject.insert_index n k a (JsObject.overwrite k' b o).
Proof.
  intros Hne. induction o as [|[k0 v0] o IH]; simpl.
  - now destruct (String.eqb_spec k k'); [congruence|].
  - assert (Hk0 : fst (if String.eqb k0 k' then (k0, b) else (k0, v0)) = k0)
      by now destruct (String.eqb k0 k').
    destruct (if String.eqb k0 k' then (k0, b) else (k0, v0)) as [k1 v1] eqn:E.
    simpl in Hk0. subst k1.
    destruct (JsObject.array_index k0) as [n'|]; [destruct (n' <? n)%N|];
      simpl; rewrite ?E, ?IH;
      try (destruct (String.eqb_spec k k'); [congruence|]); reflexivity.
Qed.

Lemma overwrite_define_new o k k' a b :
  k <> k' ->
  JsObject.overwrite k' b (JsObject.define_new k a o)
  = JsObject.define_new k a (JsObject.overwrite k' b o).
Proof.
  intros Hne. unfold JsObject.define_new.
  destruct (JsObject.array_index k).
  - now apply overwrite_insert_index.
  - induction o as [|[k0 v0] o IH]; simpl.
    + now destruct (String.eqb_spec k k'); [congruence|].
    + now rewrite IH.
Qed.

Lemma overwrite_insert_index_same o n k a b :
  JsObject.own_get o k = None ->
  JsObject.overwrite k b (JsObject.insert_index n k a o)
  = JsObject.insert_index n k b o.
Proof.
  induction o as [|[k0 v0] o IH]; simpl.
  - now rewrite String.eqb_refl.
  - destruct (String.eqb_spec k0 k) as [->|Hne]; [discriminate|]. intros Hnone.
    destruct (JsObject.array_index k0) as [n'|]; [destruct (n' <? n)%N|];
      simpl; rewrite ?String.eqb_refl.
    + destruct (String.eqb_spec k0 k); [congruence|]. now rewrite IH.
    + destruct (String.eqb_spec k0 k); [congruence|].
      now rewrite overwrite_absent.
    + destruct (String.eqb_spec k0 k); [congruence|].
      now rewrite overwrite_absent.
Qed.

Lemma overwrite_define_new_same o k a b :
  JsObject.own_get o k = None ->
  JsObject.overwrite k b (JsObject.define_new k a o)
  = JsObject.define_new k b o.
Proof.
  intros Hnone. unfold JsObject.define_new.
  destruct (JsObject.array_index k).
  - now apply overwrite_insert_index_same.
  - induction o as [|[k0 v0] o IH]; simpl.
    + now rewrite String.eqb_refl.
    + simpl in Hnone. destruct (String.eqb_spec k0 k); [discriminate|].
      now rewrite IH.
Qed.

Lemma set_set o k a b :
  JsObject.set (JsObject.set o k a) k b = JsObject.set o k b.
Proof.
  unfold JsObject.set at 1. rewrite own_get_set_eq.
  unfold JsObject.set. destruct (JsObject.own_get o k) eqn:Hk.
  - apply overwrite_twice.
  - now apply overwrite_define_new_same.
Qed.

Lemma set_comm_known o k k' a b x :
  k <> k' -> JsObject.own_get o k' = Some x ->
  JsObject.set (JsObject.set o k a) k' b
  = JsObject.set (JsObject.set o k' b) k a.
Proof.
  intros Hne Hk'.
  assert (H1 : JsObject.set (JsObject.set o k a) k' b
               = JsObject.overwrite k' b (JsObject.set o k a)).
  { unfold JsObject.set at 1. rewrite own_get_set_ne by exact Hne.
    now rewrite Hk'. }
  assert (H2 : JsObject.set o k' b = JsObject.overwrite k' b o).
  { unfold JsObject.set. now rewrite Hk'. }
  rewrite H1, H2. unfold JsObject.set. rewrite own_get_overwrite.
  destruct (String.eqb_spec k' k); [congruence|].
  destruct (JsObject.own_get o k).
  - apply overwrite_comm. congruence.
  - apply overwrite_define_new. exact Hne.
Qed.
End Composition.

Lemma get_set_ne o k k' r :
  k <> k' -> get (JsObject.set o k r) k' = get o k'.
Proof. intros H. unfold get. now rewrite own_get_set_ne. Qed.

Lemma get_set_eq o k r : get (JsObject.set o k r) k = Own r.
Proof. unfold get. now rewrite own_get_set_eq. Qed.

(** X15: the status updater is last-writer-wins, for known and unknown
    values alike: applying it twice for a value gives the store that the
    second application alone gives (in particular a repeated application of
    the same result changes nothing more). *)
Theorem updateBarcodeSearchStatus_last_wins :
  forall state v a b,
    updateBarcodeSearchStatus (updateBarcodeSearchStatus state v a) v b
    = updateBarcodeSearchStatus state v b.
Proof.
  intros state v a b. unfold updateBarcodeSearchStatus. cbn [scanResults].
  rewrite get_set_eq. cbn [fields]. f_equal.
  rewrite set_set. reflexivity.
Qed.

(** X16: for a value that has a record, applying a verification result
    and recording a detection, of the same or of another value, give the same
    store in either order, in both revisions: neither loses the count, the
    geometry or the status the other one writes. *)
Theorem verification_commutes_with_detection :
  forall state v st b t r,
    JsObject.own_get (scanResults state) v = Some r ->
    updateBarcodeSearchStatus (Rev1.updateScanResults state b) v st
    = Rev1.updateScanResults (updateBarcodeSearchStatus state v st) b
    /\ updateBarcodeSearchStatus (Rev2.updateScanResults t state b) v st
       = Rev2.updateScanResults t (updateBarcodeSearchStatus state v st) b.
Proof.
  intros state v st b t r Hr.
  unfold updateBarcodeSearchStatus, Rev1.updateScanResults,
    Rev2.updateScanResults. cbn [scanResults].
  destruct (string_dec (Barcode.displayValue b) v) as [Hk|Hk].
  - rewrite Hk, !get_set_eq, (get_own _ _ _ Hr). cbn [truthy fields].
    rewrite !set_set. split; reflexivity.
  - rewrite !get_set_ne by congruence.
    rewrite (get_own _ _ _ Hr). cbn [fields].
    split; f_equal; apply set_comm_known with (x := r); auto.
Qed.

Lemma verification_commutes_with_detection_witness :
  let state := scanAll2 initialState
                 [(0, qrCode "S123" (Some square)); (40, qrCode "X999" None)] in
  updateBarcodeSearchStatus
    (Rev2.updateScanResults 80 state (qrCode "S123" (Some shifted)))
    "S123" matched
  = Rev2.updateScanResults 80
      (updateBarcodeSearchStatus state "S123" matched)
      (qrCode "S123" (Some shifted)).
Proof.
  intros state.
  exact (proj2 (verification_commutes_with_detection state "S123" matched
                  (qrCode "S123" (Some shifted)) 80
                  (set_timestamp 0 (set_searchStatus scanned
                     (set_count (Num 1)
                        (ofBarcode (qrCode "S123" (Some square))))))
                  eq_refl)).
Defined.
